(** * MoMo SMS processor: extraction, categorisation and statistics

    A shallow embedding of [etl/sms_processor.py] (class [MomoSmsProcessor])
    and the properties of its extraction-and-classification pipeline.

    Conventions of the embedding.
    - A message (the [Dict[str, Any]] that xmltodict builds for one [<sms>]
      element) is a finite map from attribute names to attribute values,
      [gmap string string]: the keys the processor reads, ['@body'] and
      ['@date'], are XML attributes, whose values are always text.
    - Text is Stdlib's [string], read as ASCII text: [lower] and the character
      classes of the regular expressions act on the ASCII range, and bytes
      above 127 are carried through unchanged and belong to no class.
    - An amount is the exact decimal value its text denotes, a canonical
      rational [Qc]; the rounding of that value to a double is not modelled.
    - Exceptions are values: a computation that may raise returns a [result].
    - The dead-letter sink is the sequence of the records written to it, a
      log of the writes; the files these writes leave on disk are derived
      from it ([dead_letter_files]). A failure of the write itself (caught
      and logged by [save_to_dead_letter]) and log output are not modelled. *)

From stdpp Require Import gmap strings list fin_maps numbers.
From Stdlib Require Import Ascii ZArith QArith Qcanon Lia.

Local Open Scope Z_scope.

(** ** Python text primitives *)

Module PyStr.

Definition code (c : ascii) : N := N_of_ascii c.

Definition in_range (lo hi : N) (c : ascii) : bool :=
  ((lo <=? code c) && (code c <=? hi))%N.

Definition is_upper (c : ascii) : bool := in_range 65 90 c.
Definition is_lower (c : ascii) : bool := in_range 97 122 c.
Definition is_digit (c : ascii) : bool := in_range 48 57 c.

(** [str.isspace] and the class [\s] on the ASCII range:
    TAB, LF, VT, FF, CR, the four separators FS GS RS US, and SPACE. *)
Definition is_space (c : ascii) : bool :=
  in_range 9 13 c || in_range 28 31 c || (code c =? 32)%N.

(** The class [\w] on the ASCII range. *)
Definition is_word (c : ascii) : bool :=
  is_digit c || is_upper c || is_lower c || (code c =? 95)%N.

Definition lower_char (c : ascii) : ascii :=
  if is_upper c then ascii_of_N (code c + 32) else c.

(** [s.lower()] *)
Fixpoint lower (s : string) : string :=
  match s with
  | EmptyString => EmptyString
  | String c s' => String (lower_char c) (lower s')
  end.

(** [s.startswith(p)] *)
Fixpoint startswith (p s : string) : bool :=
  match p, s with
  | EmptyString, _ => true
  | String _ _, EmptyString => false
  | String a p', String b s' => if Ascii.eqb a b then startswith p' s' else false
  end.

(** [needle in hay] *)
Fixpoint contains (needle hay : string) : bool :=
  startswith needle hay ||
  match hay with
  | EmptyString => false
  | String _ hay' => contains needle hay'
  end.

(** [s.replace(c, '')] for a one-character [c] *)
Fixpoint remove_char (c : ascii) (s : string) : string :=
  match s with
  | EmptyString => EmptyString
  | String a s' =>
      if Ascii.eqb a c then remove_char c s' else String a (remove_char c s')
  end.

Fixpoint drop (n : nat) (s : string) : string :=
  match n, s with
  | O, _ => s
  | S _, EmptyString => EmptyString
  | S n', String _ s' => drop n' s'
  end.

Fixpoint take (n : nat) (s : string) : string :=
  match n, s with
  | O, _ => EmptyString
  | S _, EmptyString => EmptyString
  | S n', String c s' => String c (take n' s')
  end.

Fixpoint lstrip_by (f : ascii → bool) (s : string) : string :=
  match s with
  | EmptyString => EmptyString
  | String c s' => if f c then lstrip_by f s' else s
  end.

Fixpoint rstrip_by (f : ascii → bool) (s : string) : string :=
  match s with
  | EmptyString => EmptyString
  | String c s' =>
      match rstrip_by f s' with
      | EmptyString => if f c then EmptyString else String c EmptyString
      | t => String c t
      end
  end.

(** [s.strip()] *)
Definition strip (s : string) : string := rstrip_by is_space (lstrip_by is_space s).

Fixpoint all_chars (f : ascii → bool) (s : string) : bool :=
  match s with
  | EmptyString => true
  | String c s' => f c && all_chars f s'
  end.

Definition digit_value (c : ascii) : Z := Z.of_N (code c) - 48.

(** The value of a run of decimal digits, most significant first. *)
Fixpoint digits_value (acc : Z) (s : string) : Z :=
  match s with
  | EmptyString => acc
  | String c s' => digits_value (10 * acc + digit_value c) s'
  end.

(** Digits with single underscores between them, as [int] accepts them;
    [prev] tells whether the previous character was a digit. *)
Fixpoint int_digits (prev : bool) (acc : Z) (s : string) : option Z :=
  match s with
  | EmptyString => if prev then Some acc else None
  | String c s' =>
      if is_digit c then int_digits true (10 * acc + digit_value c) s'
      else if (code c =? 95)%N then
        (if prev then
           match s' with
           | EmptyString => None
           | String d _ => if is_digit d then int_digits false acc s' else None
           end
         else None)
      else None
  end.

(** The blanks [int] skips around a number. *)
Definition is_int_blank (c : ascii) : bool := in_range 9 13 c || (code c =? 32)%N.

(** The number of digits of a text. *)
Fixpoint digit_count (s : string) : N :=
  match s with
  | EmptyString => 0
  | String c s' => ((if is_digit c then 1 else 0) + digit_count s')%N
  end.

(** The default of [sys.get_int_max_str_digits()]. *)
Definition int_max_str_digits : N := 4300.

(** [int(s)] for a text [s]: [None] stands for [ValueError], which a text
    with more digits than the limit raises too. *)
Definition int (s : string) : option Z :=
  let t := rstrip_by is_int_blank (lstrip_by is_int_blank s) in
  if (int_max_str_digits <? digit_count t)%N then None
  else
    match t with
    | String "-" u => Z.opp <$> int_digits false 0 u
    | String "+" u => int_digits false 0 u
    | u => int_digits false 0 u
    end.

(** Splits at the first dot: the text before it and, if there is one, the
    text after it. *)
Fixpoint split_dot (s : string) : string * option string :=
  match s with
  | EmptyString => (EmptyString, None)
  | String c s' =>
      if Ascii.eqb c "." then (EmptyString, Some s')
      else let '(i, f) := split_dot s' in (String c i, f)
  end.

Fixpoint pow10 (n : nat) : positive :=
  match n with
  | O => 1%positive
  | S n' => (10 * pow10 n')%positive
  end.

(** The decimal with integer digits [i] and fraction digits [f]. *)
Definition decimal (i f : string) : Qc :=
  Q2Qc (Qmake (digits_value 0 (i +:+ f)) (pow10 (String.length f))).

(** [float(s)] on the texts the amount patterns can capture (digits and
    dots, the commas already removed): digits with at most one dot and at
    least one digit. [None] stands for [ValueError]. *)
Definition float (s : string) : option Qc :=
  match split_dot s with
  | (i, None) =>
      if all_chars is_digit i && negb (String.eqb i EmptyString)
      then Some (decimal i EmptyString) else None
  | (i, Some f) =>
      if all_chars is_digit i && all_chars is_digit f
         && negb (String.eqb (i +:+ f) EmptyString)
      then Some (decimal i f) else None
  end.

End PyStr.


(** ** Regular expressions

    The patterns of the processor are sequences of quantified character
    sets, at most one of them a capture group; [re.search] tries the start
    positions from left to right, and at each of them the greedy quantifiers
    take the longest run first and give characters back one at a time. *)

Module Re.

(** One member of a character set. *)
Inductive item : Type :=
| Chr (c : ascii)   (* a literal character *)
| Digit             (* \d *)
| Space             (* \s *)
| Word.             (* \w *)

Inductive quantifier : Type :=
| Once                (* no quantifier *)
| Star                (* *  *)
| Plus                (* +  *)
| AtLeast (n : nat).  (* {n,} *)

Record piece : Type := Piece {
  p_set : list item;
  p_quant : quantifier;
  p_group : bool   (* the piece is the capture group 1 *)
}.

Definition pattern : Type := list piece.

(** A match object: [group()] and [group(1)]. *)
Record matched : Type := Matched {
  group0 : string;
  group1 : option string
}.

Definition item_matches (ignorecase : bool) (i : item) (c : ascii) : bool :=
  match i with
  | Chr a =>
      if ignorecase then Ascii.eqb (PyStr.lower_char a) (PyStr.lower_char c)
      else Ascii.eqb a c
  | Digit => PyStr.is_digit c
  | Space => PyStr.is_space c
  | Word => PyStr.is_word c
  end.

Definition set_matches (ignorecase : bool) (set : list item) (c : ascii) : bool :=
  existsb (λ i, item_matches ignorecase i c) set.

(** Length of the longest prefix of [s] made of characters accepted by [f]. *)
Fixpoint run_length (f : ascii → bool) (s : string) : nat :=
  match s with
  | EmptyString => O
  | String c s' => if f c then S (run_length f s') else O
  end.

Definition min_count (q : quantifier) : nat :=
  match q with
  | Once => 1
  | Star => 0
  | Plus => 1
  | AtLeast n => n
  end.

Definition max_count (q : quantifier) (avail : nat) : nat :=
  match q with
  | Once => Nat.min 1 avail
  | _ => avail
  end.

(** Tries the repetition counts [n], [n-1], ..., [lo] in this order and
    returns the first success of the continuation [k]. *)
Fixpoint first_down {A} (k : nat → option A) (lo n : nat) : option A :=
  if (n <? lo)%nat then None
  else
    match k n with
    | Some r => Some r
    | None =>
        match n with
        | O => None
        | S n' => first_down k lo n'
        end
    end.

(** Match of a pattern anchored at the start of [s]. *)
Fixpoint match_here (ignorecase : bool) (ps : pattern) (s : string) : option matched :=
  match ps with
  | [] => Some (Matched EmptyString None)
  | p :: ps' =>
      first_down
        (λ n,
           match match_here ignorecase ps' (PyStr.drop n s) with
           | Some m =>
               Some (Matched (PyStr.take n s +:+ group0 m)
                       (if p_group p then Some (PyStr.take n s) else group1 m))
           | None => None
           end)
        (min_count (p_quant p))
        (max_count (p_quant p) (run_length (set_matches ignorecase (p_set p)) s))
  end.

(** [re.search(pattern, s)], with [re.IGNORECASE] when [ignorecase]. *)
Fixpoint search (ignorecase : bool) (ps : pattern) (s : string) : option matched :=
  match match_here ignorecase ps s with
  | Some m => Some m
  | None =>
      match s with
      | EmptyString => None
      | String _ s' => search ignorecase ps s'
      end
  end.

(** A literal word of the pattern, one piece per character. *)
Definition lit (w : string) : pattern :=
  (λ c, Piece [Chr c] Once false) <$> String.list_ascii_of_string w.

End Re.

(** ** Exceptions and the platform *)

Inductive exn : Type :=
| KeyError (key : string)
| ValueError (msg : string)
| TypeError (msg : string)
| OverflowError (msg : string)
| OSError (msg : string).

(** [str(e)]; for a [KeyError] it is the [repr] of the key. *)
Definition exn_str (e : exn) : string :=
  match e with
  | KeyError key => "'" +:+ key +:+ "'"
  | ValueError msg | TypeError msg | OverflowError msg | OSError msg => msg
  end.

Inductive result (A : Type) : Type :=
| Ok (a : A)
| Raise (e : exn).
Arguments Ok {A} a.
Arguments Raise {A} e.

Global Instance result_ret : MRet result := λ A a, Ok a.
Global Instance result_bind : MBind result := λ A B k r,
  match r with
  | Ok a => k a
  | Raise e => Raise e
  end.

(** [try: r  except <classes accepted by handles>: h] *)
Definition try_except {A} (r : result A) (handles : exn → bool) (h : result A) : result A :=
  match r with
  | Ok a => Ok a
  | Raise e => if handles e then h else Raise e
  end.

(** A point in time at millisecond resolution, as milliseconds since the
    epoch; its formatting with [strftime] is not modelled. *)
Record datetime : Type := Datetime { epoch_millis : Z }.

(** What the processor takes from the interpreter and the operating system:
    the wall clock, read as one value, and the conversion of a timestamp.
    [fromtimestamp_millis n] is [datetime.fromtimestamp(n / 1000)] for an
    integer [n]: the true division and the conversion, either of which may
    raise. *)
Record platform : Type := Platform {
  now : datetime;
  fromtimestamp_millis : Z → result datetime
}.

(** A platform instance: CPython 3.11 on Linux x86-64 with a 64-bit
    [time_t], in UTC. The quotient [n / 1000] is rounded to a double before
    the conversion, which moves the boundaries off the round figures: the
    division overflows from (2^1024 - 2^970) * 1000; the conversion raises
    [OverflowError] when the rounded quotient leaves [time_t], [OSError]
    where [localtime] fails (a year beyond the range of [int]) and
    [ValueError] for a year outside 1..9999, the first day of year 1
    included (the conversion looks one day back). The text of a
    [ValueError] names the year; it is abridged here, since the handler of
    the timestamp block discards it. *)
Definition posix64_fromtimestamp (n : Z) : result datetime :=
  if (2 ^ 1024 - 2 ^ 970) * 1000 <=? Z.abs n then
    Raise (OverflowError "integer division result too large for a float")
  else if (2 ^ 63 + 1024) * 1000 <? Z.abs n then
    Raise (OverflowError "timestamp out of range for platform time_t")
  else if (n <? -67768040609740804000) || (67768036191676796000 <=? n) then
    Raise (OSError "[Errno 75] Value too large for defined data type")
  else if (n <? -62135510400000) || (253402300800000 <=? n) then
    Raise (ValueError "year is out of range")
  else Ok (Datetime n).

Definition posix64 : platform :=
  {| now := Datetime 1700000000000; fromtimestamp_millis := posix64_fromtimestamp |}.

(** ** Data model *)

(** One SMS as xmltodict delivers it: attribute name to attribute value. *)
Abbreviation message := (gmap string string).

Inductive transaction_type : Type := CASH_IN | CASH_OUT | OTHER.

Definition type_name (t : transaction_type) : string :=
  match t with
  | CASH_IN => "CASH_IN"
  | CASH_OUT => "CASH_OUT"
  | OTHER => "OTHER"
  end.

Global Instance transaction_type_eq_dec : EqDecision transaction_type.
Proof. solve_decision. Defined.

Global Instance transaction_type_countable : Countable transaction_type.
Proof.
  refine (inj_countable'
            (λ t, match t with CASH_IN => 0%nat | CASH_OUT => 1%nat | OTHER => 2%nat end)
            (λ n, match n with O => CASH_IN | S O => CASH_OUT | _ => OTHER end) _).
  intros []; reflexivity.
Defined.

(** The dictionary [extract_transaction_details] returns. *)
Record transaction : Type := Transaction {
  tx_date : datetime;
  tx_description : string;
  tx_amount : Qc;
  tx_type : transaction_type;
  tx_category : string;
  tx_phone : option string;
  tx_reference : option string;
  tx_processed_date : datetime
}.

(** The JSON object [save_to_dead_letter] writes. *)
Record dead_letter : Type := DeadLetter {
  dl_message : message;
  dl_error : string;
  dl_timestamp : datetime
}.

(** ** Class constants *)

Definition CASH_IN_KEYWORDS : list string :=
  ["received"; "cash in"; "payment received"; "paid"].
Definition CASH_OUT_KEYWORDS : list string :=
  ["withdrew"; "cash out"; "paid"; "payment"].

(** The dictionary [CATEGORIES], in the order of its declaration, which is
    the order in which [items()] yields it. *)
Definition CATEGORIES : list (string * list string) :=
  [ ("bills", ["bill"; "dstv"; "electricity"; "water"; "utility"]);
    ("shopping", ["shop"; "store"; "market"; "mall"; "purchase"]);
    ("food", ["food"; "restaurant"; "cafe"; "meal"; "grocery"]);
    ("transport", ["transport"; "uber"; "taxi"; "fare"; "ride"]);
    ("entertainment", ["entertainment"; "movie"; "cinema"; "game"; "ticket"]);
    ("education", ["school"; "tuition"; "fee"; "education"; "college"]);
    ("health", ["health"; "hospital"; "medical"; "pharmacy"; "doctor"]);
    ("transfer", ["transfer"; "sent to"; "received from"]);
    ("airtime", ["airtime"; "data"; "bundle"; "credit"; "recharge"]);
    ("withdrawal", ["withdraw"; "atm"; "agent"; "cash out"]);
    ("deposit", ["deposit"; "cash in"; "load"]);
    ("salary", ["salary"; "payroll"; "wage"; "income"]);
    ("savings", ["save"; "savings"; "investment"]);
    ("loan", ["loan"; "borrow"; "credit"; "debt"]);
    ("other", []) ].

(** ** The processor *)

(** [any(keyword in text for keyword in keywords)] *)
Definition any_in (keywords : list string) (text : string) : bool :=
  existsb (λ keyword, PyStr.contains keyword text) keywords.

Definition momo_indicators : list string :=
  ["momo"; "mobile money"; "transaction"; "received";
   "sent"; "cash in"; "cash out"; "withdraw"; "deposit"].

Definition is_momo_sms (msg : message) : bool :=
  match msg !! "@body" with
  | None => false
  | Some body => any_in momo_indicators (PyStr.lower body)
  end.

(** The loop of [categorize_transaction] over the items of a dictionary. *)
Fixpoint categorize_in (categories : list (string * list string)) (description : string)
  : string :=
  match categories with
  | [] => "other"
  | (category, keywords) :: rest =>
      if any_in keywords description then category
      else categorize_in rest description
  end.

Definition categorize_transaction (description : string) : string :=
  categorize_in CATEGORIES description.

Definition number_set : list Re.item := [Re.Digit; Re.Chr ","; Re.Chr "."].
Definition label_sep : list Re.item := [Re.Chr ":"; Re.Space].

Definition amount_patterns : list Re.pattern :=
  [ (* RWF\s*([\d,.]+) *)
    Re.lit "RWF" ++ [Re.Piece [Re.Space] Re.Star false; Re.Piece number_set Re.Plus true];
    (* ([\d,.]+)\s*RWF *)
    [Re.Piece number_set Re.Plus true; Re.Piece [Re.Space] Re.Star false] ++ Re.lit "RWF";
    (* amount[:\s]*RWF\s*([\d,.]+) *)
    Re.lit "amount" ++ [Re.Piece label_sep Re.Star false] ++ Re.lit "RWF"
      ++ [Re.Piece [Re.Space] Re.Star false; Re.Piece number_set Re.Plus true];
    (* amount[:\s]*([\d,.]+) *)
    Re.lit "amount" ++ [Re.Piece label_sep Re.Star false; Re.Piece number_set Re.Plus true];
    (* ([\d,.]+)\s*francs *)
    [Re.Piece number_set Re.Plus true; Re.Piece [Re.Space] Re.Star false] ++ Re.lit "francs" ].

(** What one amount pattern yields on a body: the number its group
    captures, when the pattern matches and the capture parses. *)
Definition amount_of_pattern (pattern : Re.pattern) (body : string) : option Qc :=
  match Re.search true pattern body with
  | Some m =>
      match Re.group1 m with
      | Some amount_str => PyStr.float (PyStr.remove_char "," amount_str)
      | None => None
      end
  | None => None
  end.

(** The loop over the amount patterns: [break] on the first parse,
    [continue] on a pattern without match or on a [ValueError]; [amount]
    is the value the variable holds after the loop. *)
Fixpoint amount_loop (patterns : list Re.pattern) (body : string) (amount : Qc) : Qc :=
  match patterns with
  | [] => amount
  | pattern :: rest =>
      match amount_of_pattern pattern body with
      | Some a => a
      | None => amount_loop rest body amount
      end
  end.

Definition extract_amount (body : string) : Qc :=
  amount_loop amount_patterns body (Q2Qc 0).

Definition classify_type (body_lower : string) : transaction_type :=
  if any_in CASH_IN_KEYWORDS body_lower then CASH_IN
  else if any_in CASH_OUT_KEYWORDS body_lower then CASH_OUT
  else OTHER.

(** (?:\+|0)[\d\s]{9,} *)
Definition phone_pattern : Re.pattern :=
  [Re.Piece [Re.Chr "+"; Re.Chr "0"] Re.Once false;
   Re.Piece [Re.Digit; Re.Space] (Re.AtLeast 9) false].

Definition extract_phone (body : string) : option string :=
  (λ m, PyStr.strip (Re.group0 m)) <$> Re.search false phone_pattern body.

Definition ref_patterns : list Re.pattern :=
  [ (* ref[:\s]*(\w+) *)
    Re.lit "ref" ++ [Re.Piece label_sep Re.Star false; Re.Piece [Re.Word] Re.Plus true];
    (* reference[:\s]*(\w+) *)
    Re.lit "reference" ++ [Re.Piece label_sep Re.Star false; Re.Piece [Re.Word] Re.Plus true];
    (* id[:\s]*(\w+) *)
    Re.lit "id" ++ [Re.Piece label_sep Re.Star false; Re.Piece [Re.Word] Re.Plus true] ].

(** The loop over the reference patterns: the group of the first match. *)
Fixpoint reference_loop (patterns : list Re.pattern) (body : string) : option string :=
  match patterns with
  | [] => None
  | pattern :: rest =>
      match Re.search true pattern body with
      | Some m => Re.group1 m
      | None => reference_loop rest body
      end
  end.

Definition extract_reference (body : string) : option string :=
  reference_loop ref_patterns body.

Definition handles_value_or_type (e : exn) : bool :=
  match e with
  | ValueError _ | TypeError _ => true
  | _ => false
  end.

Section Processor.

Variable P : platform.

(** [int(date_str)] as a computation that may raise. *)
Definition int_of_text (s : string) : result Z :=
  match PyStr.int s with
  | Some n => Ok n
  | None => Raise (ValueError "invalid literal for int() with base 10")
  end.

(** The timestamp block of [extract_transaction_details]. *)
Definition resolve_date (date_str : string) : result datetime :=
  if String.eqb date_str "" then Ok (now P)
  else
    try_except
      (n ← int_of_text date_str; fromtimestamp_millis P n)
      handles_value_or_type
      (Ok (now P)).

(** [message['@body']] *)
Definition get_body (msg : message) : result string :=
  match msg !! "@body" with
  | Some body => Ok body
  | None => Raise (KeyError "@body")
  end.

(** The [try] block of [extract_transaction_details]. *)
Definition extract_try (msg : message) : result transaction :=
  body ← get_body msg;
  date ← resolve_date (default "" (msg !! "@date"));
  let amount := extract_amount body in
  let body_lower := PyStr.lower body in
  let transaction_type := classify_type body_lower in
  let phone := extract_phone body in
  let reference := extract_reference body in
  let category := categorize_transaction body_lower in
  Ok {| tx_date := date;
        tx_description := body;
        tx_amount := amount;
        tx_type := transaction_type;
        tx_category := category;
        tx_phone := phone;
        tx_reference := reference;
        tx_processed_date := now P |}.

(** Appends one record to the log of the dead-letter writes. On disk the
    record goes to [dead_letter_<timestamp>.json], opened for writing: see
    [dead_letter_files] for what the directory holds after the writes. *)
Definition save_to_dead_letter (msg : message) (error : string)
    (sink : list dead_letter) : list dead_letter :=
  sink ++ [ {| dl_message := msg; dl_error := error; dl_timestamp := now P |} ].

(** [extract_transaction_details]: the transaction, or [None] after the
    message went to the dead-letter sink. The sink is threaded through. *)
Definition extract_transaction_details (msg : message) (sink : list dead_letter)
  : option transaction * list dead_letter :=
  match extract_try msg with
  | Ok t => (Some t, sink)
  | Raise e => (None, save_to_dead_letter msg (exn_str e) sink)
  end.

(** The state of a run: [self.transactions] and the dead-letter sink. *)
Record run_state : Type := RunState {
  transactions : list transaction;
  sink : list dead_letter
}.

(** The body of the loop of [process] for one message. *)
Definition process_message (st : run_state) (msg : message) : run_state :=
  if is_momo_sms msg then
    match extract_transaction_details msg (sink st) with
    | (Some t, sink') => {| transactions := transactions st ++ [t]; sink := sink' |}
    | (None, sink') => {| transactions := transactions st; sink := sink' |}
    end
  else st.

(** The loop of [process] over the messages read from the XML file. *)
Definition process (messages : list message) (st : run_state) : run_state :=
  foldl process_message st messages.

End Processor.

(** ** Statistics *)

Inductive stat : Type :=
| IntStat (n : Z)
| FloatStat (x : Qc).

Definition stat_value (v : stat) : Qc :=
  match v with
  | IntStat n => Qc_of_Z n
  | FloatStat x => x
  end.

(** [Series.value_counts().to_dict()] *)
Definition value_counts `{Countable K} (l : list K) : gmap K nat :=
  foldr (λ k m, <[k := S (default O (m !! k))]> m) ∅ l.

(** [df.groupby(key)[value].sum().to_dict()] over the rows (key, value) *)
Definition groupby_sum `{Countable K} (l : list (K * Qc)) : gmap K Qc :=
  foldr (λ kv m, <[kv.1 := (kv.2 + default (Q2Qc 0) (m !! kv.1))%Qc]> m) ∅ l.

(** [Series.sum()] *)
Definition series_sum (l : list Qc) : Qc := foldr Qcplus (Q2Qc 0) l.

(** [Series.mean()]: the quotient exists for a non-empty series only. *)
Definition series_mean (l : list Qc) : option Qc :=
  match l with
  | [] => None
  | _ => Some (series_sum l / Qc_of_Z (Z.of_nat (length l)))%Qc
  end.

(** [for k, v in d.items(): stats[key k] = val v] *)
Definition update_from `{Countable K} {V} (key : K → string) (val : V → stat)
    (d : gmap K V) (stats : gmap string stat) : gmap string stat :=
  map_fold (λ k v acc, <[key k := val v]> acc) stats d.

Definition count_type_key (t : transaction_type) : string :=
  "count_" +:+ PyStr.lower (type_name t).
Definition count_category_key (category : string) : string :=
  "count_category_" +:+ category.
Definition amount_category_key (category : string) : string :=
  "amount_category_" +:+ category.

(** The three assignments that open the snapshot. *)
Definition fixed_entries (total_transactions total_amount avg : stat) : gmap string stat :=
  <["avg_transaction_amount" := avg]>
    (<["total_amount" := total_amount]>
       (<["total_transactions" := total_transactions]> ∅)).

(** The three loops that fill it. *)
Definition with_type_counts (type_counts : gmap transaction_type nat)
    (stats : gmap string stat) : gmap string stat :=
  update_from count_type_key (λ n, IntStat (Z.of_nat n)) type_counts stats.

Definition with_category_counts (category_counts : gmap string nat)
    (stats : gmap string stat) : gmap string stat :=
  update_from count_category_key (λ n, IntStat (Z.of_nat n)) category_counts stats.

Definition with_category_amounts (category_amounts : gmap string Qc)
    (stats : gmap string stat) : gmap string stat :=
  update_from amount_category_key FloatStat category_amounts stats.

Definition calculate_stats (txs : list transaction) : option (gmap string stat) :=
  match txs with
  | [] => Some ∅
  | _ =>
      let amounts := tx_amount <$> txs in
      avg ← series_mean amounts;
      let stats :=
        fixed_entries (IntStat (Z.of_nat (length txs))) (FloatStat (series_sum amounts))
          (FloatStat avg) in
      let type_counts := value_counts (tx_type <$> txs) in
      let stats := with_type_counts type_counts stats in
      let category_counts := value_counts (tx_category <$> txs) in
      let stats := with_category_counts category_counts stats in
      let category_amounts := groupby_sum ((λ t, (tx_category t, tx_amount t)) <$> txs) in
      let stats := with_category_amounts category_amounts stats in
      Some stats
  end.

(** The sum over a dictionary of a weight of each entry. *)
Definition weighted_sum `{Countable K} {V} (w : K → V → Qc) (d : gmap K V) : Qc :=
  map_fold (λ k v acc, (w k v + acc)%Qc) (Q2Qc 0) d.

Definition prefixed_value (prefix : string) (k : string) (v : stat) : Qc :=
  if PyStr.startswith prefix k then stat_value v else Q2Qc 0.

(** The sum of the values of the entries of a snapshot whose key starts
    with [prefix]. *)
Definition sum_prefixed (prefix : string) (stats : gmap string stat) : Qc :=
  weighted_sum (prefixed_value prefix) stats.

(** ** Vocabulary of the statements *)

(** [needle] occurs in [hay] as a substring. *)
Definition occurs_in (needle hay : string) : Prop :=
  ∃ pre post, hay = pre +:+ needle +:+ post.

(** The labels of the taxonomy, in declaration order. *)
Definition category_labels : list string := CATEGORIES.*1.

(** Some keyword of the list occurs in the text. *)
Definition some_keyword_in (keywords : list string) (text : string) : Prop :=
  ∃ keyword, keyword ∈ keywords ∧ occurs_in keyword text.

(** The message gave one transaction, appended to the output, and nothing
    went to the sink. *)
Definition transaction_outcome (st st' : run_state) (msg : message) : Prop :=
  ∃ t, transactions st' = transactions st ++ [t]
       ∧ sink st' = sink st
       ∧ msg !! "@body" = Some (tx_description t).

(** The message gave one dead-letter record, and no transaction. *)
Definition dead_letter_outcome (st st' : run_state) (msg : message) : Prop :=
  ∃ r, sink st' = sink st ++ [r]
       ∧ transactions st' = transactions st
       ∧ dl_message r = msg.

Definition c2_body : string :=
  "You have received RWF 500000 from JOHN DOE (0244123456) on 01/05/23 at 08:15 AM. Reference: TX123456789. Fee charged: RWF 0. Available Balance: RWF 1250000".

(** The message of [test_transaction_extraction]. *)
Definition c2_message : message :=
  {[ "@body" := c2_body; "@date" := "1683014100000"; "@address" := "MoMo" ]}.

(** A message without the body attribute. *)
Definition bodyless_message : message :=
  {[ "@date" := "1683014100000"; "@address" := "MoMo" ]}.

(** A message that is no MoMo notification. *)
Definition greeting_message : message :=
  {[ "@body" := "Hello, how are you?"; "@date" := "1683014100000" ]}.

(** A MoMo notification whose timestamp lies beyond the range of [time_t]. *)
Definition far_future_message : message :=
  {[ "@body" := "You have received RWF 100";
     "@date" := "1000000000000000000000000000000000" ]}.

(** A MoMo notification with a keyword of both keyword lists. *)
Definition paid_message : message :=
  {[ "@body" := "You PAID RWF 300 to KIGALI SHOP" ]}.

(** A batch of three transactions in two categories. *)
Definition sample_batch : list transaction :=
  [ {| tx_date := Datetime 0; tx_description := "received RWF 5 for food";
       tx_amount := Q2Qc 5; tx_type := CASH_IN; tx_category := "food";
       tx_phone := None; tx_reference := None; tx_processed_date := Datetime 0 |};
    {| tx_date := Datetime 0; tx_description := "paid 7 francs taxi";
       tx_amount := Q2Qc 7; tx_type := CASH_IN; tx_category := "transport";
       tx_phone := None; tx_reference := None; tx_processed_date := Datetime 0 |};
    {| tx_date := Datetime 0; tx_description := "withdrew RWF 2.5 food";
       tx_amount := Q2Qc (5 # 2); tx_type := CASH_OUT; tx_category := "food";
       tx_phone := None; tx_reference := None; tx_processed_date := Datetime 0 |} ].

Definition empty_run : run_state := {| transactions := []; sink := [] |}.

(** ** Persistence

    The SQLite database as the processor uses it: the two tables that
    [connect_db] creates, each a sequence of rows in rowid order, with the
    AUTOINCREMENT counter of each table (the largest rowid it ever gave
    out). The text form of the stored values ([strftime], [str]) is not
    modelled, nor are database errors and the 63-bit limit of a rowid. *)

Record tx_row : Type := TxRow {
  row_id : Z;
  row_tx : transaction
}.

Record stat_row : Type := StatRow {
  sr_id : Z;
  sr_name : string;
  sr_value : stat;
  sr_updated_at : datetime
}.

Record database : Type := Database {
  tx_table : list tx_row;
  tx_seq : Z;
  stats_table : list stat_row;
  stats_seq : Z
}.

Definition max_id (ids : list Z) (seq : Z) : Z := foldr Z.max seq ids.

(** The rowid AUTOINCREMENT gives a new row: one more than the largest
    rowid the table holds or ever held. *)
Definition next_id (ids : list Z) (seq : Z) : Z := max_id ids seq + 1.

(** INSERT INTO transactions (...) VALUES (...) *)
Definition insert_transaction (db : database) (t : transaction) : database :=
  let id := next_id (row_id <$> tx_table db) (tx_seq db) in
  {| tx_table := tx_table db ++ [ {| row_id := id; row_tx := t |} ];
     tx_seq := id;
     stats_table := stats_table db;
     stats_seq := stats_seq db |}.

(** SELECT id FROM stats WHERE stat_name = ?, then [fetchone]. *)
Definition select_stat_id (name : string) (db : database) : option Z :=
  sr_id <$> head (filter (λ r, sr_name r = name) (stats_table db)).

(** UPDATE stats SET stat_value = ?, updated_at = ? WHERE stat_name = ?
    The column holds the text [str(stat_value)]; the row of the model holds
    the value this text denotes. *)
Definition update_stat (name : string) (value : stat) (timestamp : datetime)
    (db : database) : database :=
  {| tx_table := tx_table db;
     tx_seq := tx_seq db;
     stats_table :=
       (λ r, if decide (sr_name r = name)
             then {| sr_id := sr_id r; sr_name := sr_name r;
                     sr_value := value; sr_updated_at := timestamp |}
             else r) <$> stats_table db;
     stats_seq := stats_seq db |}.

(** INSERT INTO stats (stat_name, stat_value, updated_at) VALUES (?, ?, ?)
    The column holds the text [str(stat_value)], as for an update. *)
Definition insert_stat (name : string) (value : stat) (timestamp : datetime)
    (db : database) : database :=
  let id := next_id (sr_id <$> stats_table db) (stats_seq db) in
  {| tx_table := tx_table db;
     tx_seq := tx_seq db;
     stats_table :=
       stats_table db ++ [ {| sr_id := id; sr_name := name;
                              sr_value := value; sr_updated_at := timestamp |} ];
     stats_seq := id |}.

Section Persistence.

Variable P : platform.

(** One turn of the loop over the snapshot in [save_to_db]: update the
    stat if a row has its name, insert it otherwise. *)
Definition upsert_stat (db : database) (entry : string * stat) : database :=
  match select_stat_id entry.1 db with
  | Some _ => update_stat entry.1 entry.2 (now P) db
  | None => insert_stat entry.1 entry.2 (now P) db
  end.

(** [save_to_db]: nothing without transactions; otherwise one row per
    transaction, then the snapshot entry by entry, then the commit. The
    entries are taken in the order of [map_to_list]; the order in which
    Python yields them is not modelled. Without a snapshot nothing is
    committed. *)
Definition save_to_db (txs : list transaction) (db : database) : database :=
  match txs with
  | [] => db
  | _ =>
      let db' := foldl insert_transaction db txs in
      match calculate_stats txs with
      | Some stats => foldl upsert_stat db' (map_to_list stats)
      | None => db
      end
  end.

(** The JSON document of the dashboard. *)
Record export : Type := Export {
  ex_transactions : list transaction;
  ex_stats : gmap string stat;
  ex_generated_at : datetime
}.

(** [export_to_json]: the file is written only when there are
    transactions; it then replaces what the file held. *)
Definition export_to_json (txs : list transaction) (file : option export) : option export :=
  match txs with
  | [] => file
  | _ =>
      match calculate_stats txs with
      | Some stats =>
          Some {| ex_transactions := txs; ex_stats := stats; ex_generated_at := now P |}
      | None => file
      end
  end.

(** What a run works on: the processor object, the database and the
    dashboard file. *)
Record world : Type := World {
  w_run : run_state;
  w_db : database;
  w_dashboard : option export
}.

(** The method [process] as a whole, on the messages [read_xml] returned:
    it returns at once when there are none; otherwise the loop over the
    messages, [save_to_db] and [export_to_json]. *)
Definition process_run (messages : list message) (w : world) : world :=
  match messages with
  | [] => w
  | _ =>
      let st := process P messages (w_run w) in
      {| w_run := st;
         w_db := save_to_db (transactions st) (w_db w);
         w_dashboard := export_to_json (transactions st) (w_dashboard w) |}
  end.

End Persistence.

(** [get_stats] of the API: the rows of the stats table folded into a
    dictionary, a later row replacing an earlier one of the same name. What
    the API returns under a name is the stored text; the dictionary of the
    model holds the value that text denotes. *)
Definition get_stats (db : database) : gmap string stat :=
  foldl (λ stats r, <[sr_name r := sr_value r]> stats) ∅ (stats_table db).

(** A database with the two tables empty. *)
Definition empty_db : database :=
  {| tx_table := []; tx_seq := 0; stats_table := []; stats_seq := 0 |}.

(** A processor object as [main] creates it, with an empty database and no
    dashboard file. *)
Definition fresh_world : world :=
  {| w_run := empty_run; w_db := empty_db; w_dashboard := None |}.

(** What one message contributes to a run: the transaction it yields, if
    any, and the records it sends to the sink. *)
Definition extracted_transaction (P : platform) (msg : message) : option transaction :=
  if is_momo_sms msg then (extract_transaction_details P msg []).1 else None.

Definition dead_letters_of (P : platform) (msg : message) : list dead_letter :=
  if is_momo_sms msg then (extract_transaction_details P msg []).2 else [].



(** A MoMo notification whose timestamp lies in the year 33658. *)
Definition far_year_message : message :=
  {[ "@body" := "You have received RWF 250"; "@date" := "1000000000000000" ]}.

(** The count a snapshot holds for a type: an absent key counts as zero. *)
Definition type_count (stats : gmap string stat) (t : transaction_type) : Z :=
  match stats !! count_type_key t with
  | Some (IntStat n) => n
  | _ => 0%Z
  end.

(** A digit or a blank: what may follow the first character of a phone. *)
Definition is_digit_or_space (c : ascii) : bool := PyStr.is_digit c || PyStr.is_space c.

(** * Properties *)

(** Sample evaluations of the primitives. *)
Example float_samples :
  map (λ s, this <$> PyStr.float s) ["12.50"; "500000"; "."; ""; "1.2.3"; "5."; ".5"]
  = [Some (25 # 2); Some (500000 # 1); None; None; None; Some (5 # 1); Some (1 # 2)]%Q.
Proof. vm_compute. reflexivity. Qed.

Example int_samples :
  map PyStr.int [" -1_000 "; "_12"; "1__2"; ""; "-"; "12_"; "0012"; "1 2"; "+12"]
  = [Some (-1000); None; None; None; None; None; Some 12; None; Some 12].
Proof. vm_compute. reflexivity. Qed.

(** [int] takes at most 4300 digits; leading zeros count, blanks, the sign
    and underscores do not. *)
Example int_digit_limit_samples :
  PyStr.int (String.string_of_list_ascii (replicate 4301 "1"%char)) = None
  ∧ PyStr.int (String.string_of_list_ascii (replicate 4301 "0"%char)) = None
  ∧ PyStr.int (" -" +:+ String.string_of_list_ascii (replicate 4300 "0"%char) +:+ " ") = Some 0
  ∧ PyStr.int (String.string_of_list_ascii (replicate 4299 "0"%char) +:+ "_7") = Some 7.
Proof. vm_compute. done. Qed.

(** The conversion at the ends of its ranges. *)
Example posix64_fromtimestamp_boundaries :
  map posix64_fromtimestamp
    [ -62135510400000; 253402300799999; 0 ]
  = [ Ok (Datetime (-62135510400000)); Ok (Datetime 253402300799999); Ok (Datetime 0) ]
  ∧ map posix64_fromtimestamp
      [ -62135510400001; -62135596800000; 253402300800000;
        67768036191676795999; -67768040609740804000 ]
    = replicate 5 (Raise (ValueError "year is out of range"))
  ∧ map posix64_fromtimestamp
      [ 67768036191676796000; 67768036191676799000; 2 ^ 63 * 1000;
        (2 ^ 63 + 1024) * 1000; -67768040609740804001; - ((2 ^ 63 + 1024) * 1000) ]
    = replicate 6 (Raise (OSError "[Errno 75] Value too large for defined data type"))
  ∧ map posix64_fromtimestamp
      [ (2 ^ 63 + 1024) * 1000 + 1; 10 ^ 33; - 10 ^ 33; (2 ^ 1024 - 2 ^ 970) * 1000 - 1 ]
    = replicate 4 (Raise (OverflowError "timestamp out of range for platform time_t"))
  ∧ map posix64_fromtimestamp
      [ (2 ^ 1024 - 2 ^ 970) * 1000; - ((2 ^ 1024 - 2 ^ 970) * 1000); 10 ^ 400 ]
    = replicate 3 (Raise (OverflowError "integer division result too large for a float")).
Proof. vm_compute. done. Qed.

Example strip_sample : PyStr.strip "  a b  " = "a b".
Proof. reflexivity. Qed.

Example lower_sample : PyStr.lower "RWF Az[" = "rwf az[".
Proof. reflexivity. Qed.

Example search_samples :
  map (λ s, Re.group1 <$> Re.search true (Re.lit "RWF" ++ [Re.Piece [Re.Space] Re.Star false; Re.Piece [Re.Digit; Re.Chr ","; Re.Chr "."] Re.Plus true]) s)
    ["You have received RWF 500000 from"; "rwf1,000.50x"; "RWF x"; "RW"]
  = [Some (Some "500000"); Some (Some "1,000.50"); None; None].
Proof. vm_compute. reflexivity. Qed.

(** ** Substring search *)

Lemma append_cons c s t : String c s +:+ t = String c (s +:+ t).
Proof. reflexivity. Qed.

Lemma append_nil s : EmptyString +:+ s = s.
Proof. reflexivity. Qed.

Lemma startswith_spec p s :
  PyStr.startswith p s = true ↔ ∃ post, s = p +:+ post.
Proof.
  revert s. induction p as [|a p IH]; intros s; simpl.
  - split; [intros _; by exists s | done].
  - destruct s as [|b s].
    + split; [done | intros [post Hpost]; discriminate].
    + destruct (Ascii.eqb_spec a b) as [->|Hne].
      * rewrite IH. split; intros [post Hpost]; exists post;
          rewrite ?append_cons in *; congruence.
      * split; [done | intros [post Hpost]; rewrite append_cons in Hpost; congruence].
Qed.

Lemma contains_spec needle hay :
  PyStr.contains needle hay = true ↔ occurs_in needle hay.
Proof.
  unfold occurs_in. induction hay as [|c hay IH].
  - simpl. rewrite orb_false_r, startswith_spec. split.
    + intros [post Hpost]. by exists EmptyString, post.
    + intros [[|a pre] [post Hpost]]; [by exists post | discriminate].
  - cbn [PyStr.contains]. rewrite orb_true_iff, startswith_spec, IH. split.
    + intros [[post Hpost] | (pre & post & Hpost)].
      * by exists EmptyString, post.
      * exists (String c pre), post. by rewrite append_cons, Hpost.
    + intros ([|a pre] & post & Hpost).
      * left. by exists post.
      * right. exists pre, post. rewrite append_cons in Hpost. congruence.
Qed.

Lemma any_in_spec keywords text :
  any_in keywords text = true ↔ some_keyword_in keywords text.
Proof.
  unfold any_in, some_keyword_in. rewrite existsb_exists.
  setoid_rewrite contains_spec. setoid_rewrite list_elem_of_In. done.
Qed.

Lemma any_in_false keywords text :
  any_in keywords text = false ↔ ¬ some_keyword_in keywords text.
Proof. rewrite <-any_in_spec. by destruct (any_in keywords text). Qed.

(** ** Categorizer *)

(** The loop returns the label of the first entry one of whose keywords
    occurs in the description, and the fallback when there is none. *)
Lemma categorize_in_first_match categories description :
  (∃ before category keywords after,
      categories = before ++ (category, keywords) :: after
      ∧ (∀ entry, entry ∈ before → ¬ some_keyword_in entry.2 description)
      ∧ some_keyword_in keywords description
      ∧ categorize_in categories description = category)
  ∨ ((∀ entry, entry ∈ categories → ¬ some_keyword_in entry.2 description)
     ∧ categorize_in categories description = "other").
Proof.
  induction categories as [|[category keywords] rest IH]; simpl.
  - right. split; [|done]. intros entry Hin. by apply elem_of_nil in Hin.
  - destruct (any_in keywords description) eqn:Hany.
    + left. exists [], category, keywords, rest. split_and!; [done| |by apply any_in_spec|done].
      intros entry Hin. by apply elem_of_nil in Hin.
    + apply any_in_false in Hany.
      destruct IH as [(before & c & kws & after & -> & Hbefore & Hkw & Hres) | [Hnone Hres]].
      * left. exists ((category, keywords) :: before), c, kws, after.
        split_and!; [done| |done|done].
        intros entry [->|Hin]%elem_of_cons; [done | by apply Hbefore].
      * right. split; [|done].
        intros entry [->|Hin]%elem_of_cons; [done | by apply Hnone].
Qed.

Lemma category_labels_eq :
  category_labels =
  ["bills"; "shopping"; "food"; "transport"; "entertainment"; "education"; "health";
   "transfer"; "airtime"; "withdrawal"; "deposit"; "salary"; "savings"; "loan"; "other"].
Proof. reflexivity. Qed.

Lemma category_labels_NoDup : NoDup category_labels.
Proof. apply (bool_decide_unpack _). by vm_compute. Qed.

(** The entry labelled "other" is the last one and has no keyword. *)
Lemma other_entry keywords :
  ("other", keywords) ∈ CATEGORIES → keywords = [].
Proof.
  unfold CATEGORIES. rewrite !elem_of_cons, elem_of_nil.
  intros H. repeat (destruct H as [H|H]; [congruence|]). done.
Qed.

Lemma some_keyword_in_nil text : ¬ some_keyword_in [] text.
Proof. intros (keyword & Hin & _). by apply elem_of_nil in Hin. Qed.

(** C3. [categorize_transaction] is total over all strings: it returns one
    label of the fixed set of 15 labels, the label of the first category, in
    declaration order, one of whose keywords occurs in the input as a
    substring (or the last entry, "other", when there is none); and it
    returns "other" exactly when no keyword of the 14 other categories
    occurs in the input. *)
Theorem categorize_transaction_total_first_match (description : string) :
  categorize_transaction description ∈ category_labels
  ∧ length category_labels = 15%nat
  ∧ NoDup category_labels
  ∧ (∃ before keywords after,
        CATEGORIES = before ++ (categorize_transaction description, keywords) :: after
        ∧ (∀ entry, entry ∈ before → ¬ some_keyword_in entry.2 description)
        ∧ (some_keyword_in keywords description
           ∨ (categorize_transaction description = "other" ∧ after = [])))
  ∧ (categorize_transaction description = "other"
     ↔ ∀ category keywords, (category, keywords) ∈ CATEGORIES → category ≠ "other" →
         ¬ some_keyword_in keywords description).
Proof.
  unfold categorize_transaction.
  destruct (categorize_in_first_match CATEGORIES description)
    as [(before & category & keywords & after & Hsplit & Hbefore & Hkw & Hres)
       | [Hnone Hres]].
  - assert (Hin : (category, keywords) ∈ CATEGORIES).
    { rewrite Hsplit. apply elem_of_app. right. apply elem_of_cons. by left. }
    assert (Hne : category ≠ "other").
    { intros ->. apply other_entry in Hin as ->. by apply some_keyword_in_nil in Hkw. }
    rewrite Hres. split_and!.
    + unfold category_labels. apply list_elem_of_fmap. by exists (category, keywords).
    + reflexivity.
    + apply category_labels_NoDup.
    + exists before, keywords, after. split_and!; [done|done|by left].
    + split; [done|]. intros Hall. destruct (Hall category keywords Hin Hne Hkw).
  - rewrite Hres. split_and!.
    + rewrite category_labels_eq. set_solver.
    + reflexivity.
    + apply category_labels_NoDup.
    + exists (take 14 CATEGORIES), [], []. split_and!; [reflexivity| |by right].
      intros entry Hin. apply Hnone.
      rewrite <-(take_drop 14 CATEGORIES). apply elem_of_app. by left.
    + split; [|done]. intros _ category keywords Hin _.
      apply (Hnone (category, keywords) Hin).
Qed.

(** ** Extractor: shape of the result *)

Section Extractor.

Variable P : platform.

Lemma extract_try_body msg body :
  msg !! "@body" = Some body →
  extract_try P msg =
    (date ← resolve_date P (default "" (msg !! "@date"));
     Ok {| tx_date := date;
           tx_description := body;
           tx_amount := extract_amount body;
           tx_type := classify_type (PyStr.lower body);
           tx_category := categorize_transaction (PyStr.lower body);
           tx_phone := extract_phone body;
           tx_reference := extract_reference body;
           tx_processed_date := now P |}).
Proof. intros Hbody. unfold extract_try, get_body. by rewrite Hbody. Qed.

(** With a body and a timestamp that resolves, extraction returns a
    transaction and leaves the sink as it was. *)
Lemma extract_success msg body d sink0 :
  msg !! "@body" = Some body →
  resolve_date P (default "" (msg !! "@date")) = Ok d →
  extract_transaction_details P msg sink0 =
    (Some {| tx_date := d;
             tx_description := body;
             tx_amount := extract_amount body;
             tx_type := classify_type (PyStr.lower body);
             tx_category := categorize_transaction (PyStr.lower body);
             tx_phone := extract_phone body;
             tx_reference := extract_reference body;
             tx_processed_date := now P |}, sink0).
Proof.
  intros Hbody Hdate. unfold extract_transaction_details.
  rewrite (extract_try_body _ _ Hbody), Hdate. reflexivity.
Qed.

(** Without a body the [KeyError] is caught: one record goes to the sink
    and the result is [None]. *)
Lemma extract_no_body msg sink0 :
  msg !! "@body" = None →
  extract_transaction_details P msg sink0 =
    (None, sink0 ++ [ {| dl_message := msg; dl_error := "'@body'"; dl_timestamp := now P |} ]).
Proof.
  intros Hbody. unfold extract_transaction_details, extract_try, get_body.
  by rewrite Hbody.
Qed.

(** An exception of the timestamp block that its handler does not catch
    reaches the outer handler. *)
Lemma extract_date_raises msg body e sink0 :
  msg !! "@body" = Some body →
  resolve_date P (default "" (msg !! "@date")) = Raise e →
  extract_transaction_details P msg sink0 =
    (None, sink0 ++ [ {| dl_message := msg; dl_error := exn_str e; dl_timestamp := now P |} ]).
Proof.
  intros Hbody Hdate. unfold extract_transaction_details.
  rewrite (extract_try_body _ _ Hbody), Hdate. reflexivity.
Qed.

(** The extractor always returns to its caller; it returns a transaction
    with an untouched sink, or [None] with one more record in the sink. *)
Lemma extract_cases msg sink0 :
  (∃ t, extract_transaction_details P msg sink0 = (Some t, sink0)
        ∧ msg !! "@body" = Some (tx_description t))
  ∨ (∃ error, extract_transaction_details P msg sink0 =
       (None, sink0 ++ [ {| dl_message := msg; dl_error := error; dl_timestamp := now P |} ])).
Proof.
  destruct (msg !! "@body") as [body|] eqn:Hbody.
  - destruct (resolve_date P (default "" (msg !! "@date"))) as [d|e] eqn:Hdate.
    + left. eexists. split; [by apply extract_success|]. done.
    + right. eexists. by eapply extract_date_raises.
  - right. eexists. by apply extract_no_body.
Qed.

End Extractor.

(** ** Type classification *)

Lemma paid_in_both_keyword_lists :
  "paid" ∈ CASH_IN_KEYWORDS ∧ "paid" ∈ CASH_OUT_KEYWORDS.
Proof. unfold CASH_IN_KEYWORDS, CASH_OUT_KEYWORDS. set_solver. Qed.

Lemma classify_type_cash_in body_lower :
  some_keyword_in CASH_IN_KEYWORDS body_lower → classify_type body_lower = CASH_IN.
Proof. intros H%any_in_spec. unfold classify_type. by rewrite H. Qed.

Lemma classify_type_cash_out body_lower :
  ¬ some_keyword_in CASH_IN_KEYWORDS body_lower →
  some_keyword_in CASH_OUT_KEYWORDS body_lower →
  classify_type body_lower = CASH_OUT.
Proof.
  intros Hin%any_in_false Hout%any_in_spec. unfold classify_type. by rewrite Hin, Hout.
Qed.

Lemma classify_type_other body_lower :
  ¬ some_keyword_in CASH_IN_KEYWORDS body_lower →
  ¬ some_keyword_in CASH_OUT_KEYWORDS body_lower →
  classify_type body_lower = OTHER.
Proof.
  intros Hin%any_in_false Hout%any_in_false. unfold classify_type. by rewrite Hin, Hout.
Qed.

(** C4. The type of an extracted transaction is decided on the lower-cased
    body by the CASH_IN keywords first and the CASH_OUT keywords second: a
    body with a keyword that is in both lists (such as "paid") is CASH_IN,
    as is any body with a CASH_IN keyword; a body with a CASH_OUT keyword
    and no CASH_IN keyword is CASH_OUT; a body with no keyword of either
    list is OTHER. *)
Theorem type_classification_order (P : platform) (msg : message) (body : string)
    (d : datetime) (sink0 : list dead_letter) :
  msg !! "@body" = Some body →
  resolve_date P (default "" (msg !! "@date")) = Ok d →
  ∃ t, extract_transaction_details P msg sink0 = (Some t, sink0)
       ∧ ((∃ keyword, keyword ∈ CASH_IN_KEYWORDS ∧ keyword ∈ CASH_OUT_KEYWORDS
                      ∧ occurs_in keyword (PyStr.lower body)) → tx_type t = CASH_IN)
       ∧ (some_keyword_in CASH_IN_KEYWORDS (PyStr.lower body) → tx_type t = CASH_IN)
       ∧ (¬ some_keyword_in CASH_IN_KEYWORDS (PyStr.lower body) →
          some_keyword_in CASH_OUT_KEYWORDS (PyStr.lower body) → tx_type t = CASH_OUT)
       ∧ (¬ some_keyword_in CASH_IN_KEYWORDS (PyStr.lower body) →
          ¬ some_keyword_in CASH_OUT_KEYWORDS (PyStr.lower body) → tx_type t = OTHER).
Proof.
  intros Hbody Hdate. eexists. split; [by apply extract_success|]. simpl. split_and!.
  - intros (keyword & Hin & _ & Hocc). apply classify_type_cash_in. by exists keyword.
  - apply classify_type_cash_in.
  - apply classify_type_cash_out.
  - apply classify_type_other.
Qed.

Lemma type_classification_order_witness :
  paid_message !! "@body" = Some "You PAID RWF 300 to KIGALI SHOP"
  ∧ resolve_date posix64 (default "" (paid_message !! "@date")) = Ok (now posix64)
  ∧ ∃ t, extract_transaction_details posix64 paid_message [] = (Some t, [])
         ∧ tx_type t = CASH_IN.
Proof.
  assert (Hbody : paid_message !! "@body" = Some "You PAID RWF 300 to KIGALI SHOP")
    by reflexivity.
  assert (Hdate : resolve_date posix64 (default "" (paid_message !! "@date"))
                  = Ok (now posix64)) by reflexivity.
  split_and!; [exact Hbody | exact Hdate |].
  destruct (type_classification_order posix64 paid_message _ _ [] Hbody Hdate)
    as (t & Hres & Hboth & _).
  exists t. split; [exact Hres|]. apply Hboth. exists "paid".
  split_and!; [apply paid_in_both_keyword_lists..|].
  apply contains_spec. reflexivity.
Defined.

(** ** The loop of [process] *)

Lemma is_momo_sms_spec msg :
  is_momo_sms msg = true
  ↔ ∃ body, msg !! "@body" = Some body
            ∧ some_keyword_in momo_indicators (PyStr.lower body).
Proof.
  unfold is_momo_sms. destruct (msg !! "@body") as [body|].
  - rewrite any_in_spec. split; [by exists body | by intros (? & [= ->] & ?)].
  - split; [done | by intros (? & [=] & _)].
Qed.

Lemma process_message_not_momo P st msg :
  is_momo_sms msg = false → process_message P st msg = st.
Proof. intros H. unfold process_message. by rewrite H. Qed.

Lemma process_cons P msg msgs st :
  process P (msg :: msgs) st = process P msgs (process_message P st msg).
Proof. reflexivity. Qed.

Lemma process_filter P msgs st :
  process P msgs st = process P (filter (λ msg, is_momo_sms msg = true) msgs) st.
Proof.
  revert st. induction msgs as [|msg msgs IH]; intros st; [done|].
  rewrite filter_cons. destruct (decide (is_momo_sms msg = true)) as [H|H].
  - rewrite !process_cons. apply IH.
  - rewrite process_cons, process_message_not_momo by by destruct (is_momo_sms msg).
    apply IH.
Qed.

(** A message that is not MoMo changes nothing. *)
Lemma process_message_skip P st msg :
  is_momo_sms msg = false →
  process_message P st msg = st
  ∧ ¬ transaction_outcome st (process_message P st msg) msg
  ∧ ¬ dead_letter_outcome st (process_message P st msg) msg.
Proof.
  intros Hskip. rewrite (process_message_not_momo _ _ _ Hskip). split_and!.
  - reflexivity.
  - intros (t & Htx & _). apply (f_equal length) in Htx.
    rewrite length_app in Htx. simpl in Htx. lia.
  - intros (r & Hsink & _). apply (f_equal length) in Hsink.
    rewrite length_app in Hsink. simpl in Hsink. lia.
Qed.

(** For a MoMo message the step is the extractor's result: exactly one of
    the two outcomes. *)
Lemma process_message_momo P st msg :
  is_momo_sms msg = true →
  let st' := process_message P st msg in
  (transaction_outcome st st' msg ∨ dead_letter_outcome st st' msg)
  ∧ ¬ (transaction_outcome st st' msg ∧ dead_letter_outcome st st' msg).
Proof.
  intros Hmomo st'. split.
  - subst st'. unfold process_message. rewrite Hmomo.
    destruct (extract_cases P msg (sink st)) as [(t & -> & Hbody) | (error & ->)].
    + left. by exists t.
    + right. by eexists.
  - intros [(t & _ & Hsink & _) (r & Hsink' & _)]. rewrite Hsink in Hsink'.
    apply (f_equal length) in Hsink'. rewrite length_app in Hsink'. simpl in Hsink'. lia.
Qed.

(** C10. [process] hands a message to the extractor only when [is_momo_sms]
    accepts it, that is when the message has a body whose lower-cased text
    contains one of the nine indicators; every other message (no body, or
    no indicator) is skipped: it adds no transaction and no dead-letter
    record, so that a run over a batch is the run over its MoMo messages. *)
Theorem process_only_extracts_momo (P : platform) :
  momo_indicators = ["momo"; "mobile money"; "transaction"; "received";
                     "sent"; "cash in"; "cash out"; "withdraw"; "deposit"]
  ∧ (∀ msg, is_momo_sms msg = true
            ↔ ∃ body, msg !! "@body" = Some body
                      ∧ some_keyword_in momo_indicators (PyStr.lower body))
  ∧ (∀ st msg, is_momo_sms msg = true →
       process_message P st msg =
         {| transactions :=
              transactions st ++ option_list (extract_transaction_details P msg (sink st)).1;
            sink := (extract_transaction_details P msg (sink st)).2 |})
  ∧ (∀ st msg, is_momo_sms msg = false →
       process_message P st msg = st
       ∧ ¬ transaction_outcome st (process_message P st msg) msg
       ∧ ¬ dead_letter_outcome st (process_message P st msg) msg)
  ∧ (∀ msgs st,
       process P msgs st = process P (filter (λ msg, is_momo_sms msg = true) msgs) st).
Proof.
  split_and!.
  - reflexivity.
  - apply is_momo_sms_spec.
  - intros st msg Hmomo. unfold process_message. rewrite Hmomo.
    destruct (extract_transaction_details P msg (sink st)) as [[t|] sink']; simpl.
    + reflexivity.
    + by rewrite app_nil_r.
  - intros st msg Hskip. by apply process_message_skip.
  - apply process_filter.
Qed.

(** C1, as the specification states it, fails on a message that is no MoMo
    notification: the run over the single greeting produces neither a
    transaction nor a dead-letter record. *)
Lemma exactly_one_outcome_counterexample :
  let st' := process posix64 [greeting_message] empty_run in
  st' = empty_run
  ∧ ¬ (transaction_outcome empty_run st' greeting_message
       ∨ dead_letter_outcome empty_run st' greeting_message).
Proof.
  assert (Hrun : process posix64 [greeting_message] empty_run = empty_run) by reflexivity.
  cbv zeta. rewrite Hrun. split; [done|].
  intros [(t & Htx & _) | (r & Hsink & _)]; simpl in *.
  - by destruct (app_cons_not_nil [] [] t).
  - by destruct (app_cons_not_nil [] [] r).
Qed.

(** C1, amended. For every message of the batch at most one outcome occurs:
    a message classified as MoMo yields exactly one of the two, one
    transaction appended to the output or one dead-letter record carrying the
    message, never both; a message not classified as MoMo yields neither.
    Over a batch, the transactions and dead letters added are as many as its
    MoMo messages. *)
Theorem process_message_outcome (P : platform) (st : run_state) (msg : message) :
  (let st' := process_message P st msg in
   if is_momo_sms msg then
     (transaction_outcome st st' msg ∨ dead_letter_outcome st st' msg)
     ∧ ¬ (transaction_outcome st st' msg ∧ dead_letter_outcome st st' msg)
   else
     st' = st ∧ ¬ transaction_outcome st st' msg ∧ ¬ dead_letter_outcome st st' msg)
  ∧ ∀ msgs,
      (length (transactions (process P msgs st)) + length (sink (process P msgs st))
       = length (transactions st) + length (sink st)
         + length (filter (λ msg, is_momo_sms msg = true) msgs))%nat.
Proof.
  split.
  - simpl. destruct (is_momo_sms msg) eqn:Hmomo.
    + by apply process_message_momo.
    + by apply process_message_skip.
  - intros msgs. revert st. induction msgs as [|m msgs IH]; intros st.
    + simpl. lia.
    + rewrite process_cons, IH, filter_cons.
      destruct (decide (is_momo_sms m = true)) as [Hmomo|Hskip].
      * destruct (process_message_momo P st m Hmomo) as [[(t & Htx & Hsink & _)
          | (r & Hsink & Htx & _)] _]; rewrite Htx, Hsink, ?length_app; simpl; lia.
      * rewrite process_message_not_momo by by destruct (is_momo_sms m). lia.
Qed.

(** ** A message without body *)

(** C6, as the specification states it, fails in the pipeline: the run over
    the single message without body writes no dead-letter record (and gives
    no transaction), because [is_momo_sms] rejects the message before the
    extractor sees it. *)
Lemma bodyless_dead_letter_counterexample :
  bodyless_message !! "@body" = None
  ∧ process posix64 [bodyless_message] empty_run = empty_run
  ∧ ¬ dead_letter_outcome empty_run (process posix64 [bodyless_message] empty_run)
        bodyless_message.
Proof.
  assert (Hrun : process posix64 [bodyless_message] empty_run = empty_run) by reflexivity.
  rewrite Hrun. split_and!; [reflexivity | reflexivity |].
  intros (r & Hsink & _). simpl in Hsink. by destruct (app_cons_not_nil [] [] r).
Qed.

(** C6, amended. For every message without body: the extractor, called on
    it, returns the failure value [None] without raising and writes one
    dead-letter record that carries the message and the error description;
    the pipeline never calls the extractor on it: [process] skips the
    message, which appears neither among the transactions nor in the
    dead-letter sink. *)
Theorem bodyless_message_handling (P : platform) (msg : message)
    (st : run_state) (sink0 : list dead_letter) :
  msg !! "@body" = None →
  extract_transaction_details P msg sink0 =
    (None, sink0 ++ [ {| dl_message := msg; dl_error := "'@body'"; dl_timestamp := now P |} ])
  ∧ is_momo_sms msg = false
  ∧ process_message P st msg = st
  ∧ ¬ transaction_outcome st (process_message P st msg) msg
  ∧ ¬ dead_letter_outcome st (process_message P st msg) msg.
Proof.
  intros Hbody.
  assert (Hskip : is_momo_sms msg = false) by (unfold is_momo_sms; by rewrite Hbody).
  split; [by apply extract_no_body|]. split; [done|].
  by apply process_message_skip.
Qed.

Lemma bodyless_message_handling_witness :
  bodyless_message !! "@body" = None
  ∧ extract_transaction_details posix64 bodyless_message [] =
      (None, [ {| dl_message := bodyless_message; dl_error := "'@body'";
                  dl_timestamp := now posix64 |} ])
  ∧ process_message posix64 empty_run bodyless_message = empty_run.
Proof.
  assert (Hbody : bodyless_message !! "@body" = None) by reflexivity.
  destruct (bodyless_message_handling posix64 bodyless_message empty_run [] Hbody)
    as (Hextract & _ & Hskip & _).
  split_and!; [exact Hbody | exact Hextract | exact Hskip].
Defined.

(** ** The scenario of the test suite *)

Lemma c2_amount : extract_amount c2_body = Q2Qc 500000.
Proof. apply Qc_is_canon. by vm_compute. Qed.

Lemma c2_type : classify_type (PyStr.lower c2_body) = CASH_IN.
Proof. by vm_compute. Qed.

Lemma c2_category : categorize_transaction (PyStr.lower c2_body) = "education".
Proof. by vm_compute. Qed.

(** The first reference pattern, [ref], matches inside the word "Reference". *)
Lemma c2_reference : extract_reference c2_body = Some "erence".
Proof. by vm_compute. Qed.

Lemma c2_phone : extract_phone c2_body = Some "0244123456".
Proof. by vm_compute. Qed.

(** C2, as the specification states it, fails on the message of the test
    suite: no transaction with the four stated fields is returned. The
    category is "education" (the body contains the keyword "fee", and
    education is declared before transfer and deposit); the reference is
    "erence". *)
Lemma c2_scenario_counterexample :
  ¬ ∃ t, (extract_transaction_details posix64 c2_message []).1 = Some t
         ∧ tx_type t = CASH_IN
         ∧ tx_amount t = Q2Qc 500000
         ∧ tx_reference t = Some "TX123456789"
         ∧ tx_category t ∈ ["deposit"; "transfer"; "other"].
Proof.
  assert (Hbody : c2_message !! "@body" = Some c2_body) by reflexivity.
  assert (Hdate : resolve_date posix64 (default "" (c2_message !! "@date"))
                  = Ok (Datetime 1683014100000)) by reflexivity.
  rewrite (extract_success posix64 _ _ _ [] Hbody Hdate). cbn [fst].
  intros (t & [= <-] & _ & _ & _ & Hcat). cbn [tx_category] in Hcat.
  change (categorize_transaction (PyStr.lower c2_body) ∈ ["deposit"; "transfer"; "other"])
    in Hcat.
  rewrite c2_category, !elem_of_cons, elem_of_nil in Hcat.
  by destruct Hcat as [?|[?|[?|?]]].
Qed.

(** C2, amended. For a message with the body of the scenario (and a
    timestamp that resolves), [extract_transaction_details] returns a
    transaction with type CASH_IN, amount 500000 and category "education". *)
Theorem c2_scenario (P : platform) (msg : message) (d : datetime)
    (sink0 : list dead_letter) :
  msg !! "@body" = Some c2_body →
  resolve_date P (default "" (msg !! "@date")) = Ok d →
  ∃ t, extract_transaction_details P msg sink0 = (Some t, sink0)
       ∧ tx_type t = CASH_IN
       ∧ tx_amount t = Q2Qc 500000
       ∧ tx_category t = "education".
Proof.
  intros Hbody Hdate. eexists. split; [by apply extract_success|]. simpl.
  split_and!; [apply c2_type | apply c2_amount | apply c2_category].
Qed.

Lemma c2_scenario_witness :
  c2_message !! "@body" = Some c2_body
  ∧ resolve_date posix64 (default "" (c2_message !! "@date")) = Ok (Datetime 1683014100000)
  ∧ ∃ t, extract_transaction_details posix64 c2_message [] = (Some t, [])
         ∧ tx_type t = CASH_IN
         ∧ tx_amount t = Q2Qc 500000
         ∧ tx_category t = "education".
Proof.
  assert (Hbody : c2_message !! "@body" = Some c2_body) by reflexivity.
  assert (Hdate : resolve_date posix64 (default "" (c2_message !! "@date"))
                  = Ok (Datetime 1683014100000)) by reflexivity.
  split_and!; [exact Hbody | exact Hdate |].
  exact (c2_scenario posix64 c2_message _ [] Hbody Hdate).
Defined.

(** ** Timestamp resolution *)

Section Timestamp.

Variable P : platform.

Lemma resolve_date_absent : resolve_date P "" = Ok (now P).
Proof. reflexivity. Qed.

Lemma resolve_date_unparsable date_str :
  PyStr.int date_str = None → resolve_date P date_str = Ok (now P).
Proof.
  intros Hint. unfold resolve_date, int_of_text. rewrite Hint.
  by destruct (String.eqb date_str "").
Qed.

Lemma resolve_date_converted date_str n d :
  PyStr.int date_str = Some n → fromtimestamp_millis P n = Ok d →
  resolve_date P date_str = Ok d.
Proof.
  intros Hint Hconv. unfold resolve_date, int_of_text. rewrite Hint.
  destruct (String.eqb_spec date_str "") as [->|_]; [discriminate Hint|].
  simpl. by rewrite Hconv.
Qed.

(** The handler of the timestamp block takes [ValueError] and [TypeError]
    only: any other exception of the conversion leaves the block. *)
Lemma resolve_date_raises date_str n e :
  PyStr.int date_str = Some n → fromtimestamp_millis P n = Raise e →
  handles_value_or_type e = false →
  resolve_date P date_str = Raise e.
Proof.
  intros Hint Hconv Hhandles. unfold resolve_date, int_of_text. rewrite Hint.
  destruct (String.eqb_spec date_str "") as [->|_]; [discriminate Hint|].
  simpl. rewrite Hconv. simpl. by rewrite Hhandles.
Qed.

(** Where the conversion raises nothing but [ValueError] and [TypeError],
    the block always produces a date. *)
Lemma resolve_date_total date_str :
  (∀ n e, fromtimestamp_millis P n = Raise e → handles_value_or_type e = true) →
  ∃ d, resolve_date P date_str = Ok d.
Proof.
  intros Hplatform. unfold resolve_date, int_of_text.
  destruct (String.eqb date_str ""); [by eexists|].
  destruct (PyStr.int date_str) as [n|]; simpl; [|by eexists].
  destruct (fromtimestamp_millis P n) as [d|e] eqn:Hconv; simpl; [by eexists|].
  rewrite (Hplatform _ _ Hconv). by eexists.
Qed.

End Timestamp.

(** C7. The timestamp block does not always produce a date: on a 64-bit
    POSIX platform the date attribute 10^33 parses as an integer, its
    conversion raises [OverflowError], which the handler of the block (for
    [ValueError] and [TypeError]) does not catch; no date is produced, the
    exception leaves the block, and the message, a MoMo notification, ends
    in the dead-letter sink instead of the output. *)
Theorem timestamp_overflow_leaves_block :
  PyStr.int "1000000000000000000000000000000000" = Some (10 ^ 33)
  ∧ resolve_date posix64 (default "" (far_future_message !! "@date"))
    = Raise (OverflowError "timestamp out of range for platform time_t")
  ∧ is_momo_sms far_future_message = true
  ∧ process posix64 [far_future_message] empty_run =
      {| transactions := [];
         sink := [ {| dl_message := far_future_message;
                      dl_error := "timestamp out of range for platform time_t";
                      dl_timestamp := now posix64 |} ] |}.
Proof. split_and!; reflexivity. Qed.

(** ** Amount extraction *)

Lemma amount_loop_first patterns body amount0 i pattern a :
  patterns !! i = Some pattern →
  amount_of_pattern pattern body = Some a →
  (∀ j earlier, (j < i)%nat → patterns !! j = Some earlier →
                amount_of_pattern earlier body = None) →
  amount_loop patterns body amount0 = a.
Proof.
  revert i. induction patterns as [|p rest IH]; intros i Hi Ha Hearlier; [done|].
  destruct i as [|i]; simpl in *.
  - injection Hi as ->. by rewrite Ha.
  - rewrite (Hearlier O p) by (done || lia).
    apply (IH i); [done..|]. intros j earlier Hj Hlookup.
    apply (Hearlier (S j) earlier); [lia | done].
Qed.

Lemma amount_loop_none patterns body amount0 :
  (∀ pattern, pattern ∈ patterns → amount_of_pattern pattern body = None) →
  amount_loop patterns body amount0 = amount0.
Proof.
  induction patterns as [|p rest IH]; intros Hnone; [done|]. simpl.
  rewrite (Hnone p) by (apply elem_of_cons; by left).
  apply IH. intros pattern Hin. apply Hnone. apply elem_of_cons. by right.
Qed.

(** A pattern yields no amount when it does not match or when its capture,
    commas removed, does not parse. *)
Lemma amount_of_pattern_none pattern body :
  amount_of_pattern pattern body = None
  ↔ Re.search true pattern body = None
    ∨ ∃ m, Re.search true pattern body = Some m
           ∧ (amount_str ← Re.group1 m; PyStr.float (PyStr.remove_char "," amount_str)) = None.
Proof.
  unfold amount_of_pattern. destruct (Re.search true pattern body) as [m|].
  - split.
    + intros H. right. exists m. split; [done|]. by destruct (Re.group1 m).
    + intros [[=] | (m' & [= <-] & H)]. by destruct (Re.group1 m).
  - split; [by left | done].
Qed.

(** What a list entry yields, written out. *)
Lemma amount_of_pattern_unfold pattern body :
  amount_of_pattern pattern body
  = (m ← Re.search true pattern body;
     amount_str ← Re.group1 m;
     PyStr.float (PyStr.remove_char "," amount_str)).
Proof.
  unfold amount_of_pattern. destruct (Re.search true pattern body) as [m|]; [|done].
  simpl. by destruct (Re.group1 m).
Qed.

(** C5. Amount extraction tries five patterns in this order: a number after
    RWF, a number before RWF, a number after "amount" and RWF, a number
    after "amount", a number before "francs"; each is searched without
    regard to case, and the amount is the number of the first pattern whose
    capture, commas stripped, parses; a pattern that does not match or whose
    capture does not parse passes the turn to the next one; when no pattern
    yields a number the amount is 0, and extraction does not fail on account
    of the amount. *)
Theorem amount_extraction_first_parse (body : string) :
  amount_patterns =
    [ Re.lit "RWF" ++ [Re.Piece [Re.Space] Re.Star false;
                       Re.Piece [Re.Digit; Re.Chr ","; Re.Chr "."] Re.Plus true];
      [Re.Piece [Re.Digit; Re.Chr ","; Re.Chr "."] Re.Plus true;
       Re.Piece [Re.Space] Re.Star false] ++ Re.lit "RWF";
      Re.lit "amount" ++ [Re.Piece [Re.Chr ":"; Re.Space] Re.Star false] ++ Re.lit "RWF"
        ++ [Re.Piece [Re.Space] Re.Star false;
            Re.Piece [Re.Digit; Re.Chr ","; Re.Chr "."] Re.Plus true];
      Re.lit "amount" ++ [Re.Piece [Re.Chr ":"; Re.Space] Re.Star false;
                          Re.Piece [Re.Digit; Re.Chr ","; Re.Chr "."] Re.Plus true];
      [Re.Piece [Re.Digit; Re.Chr ","; Re.Chr "."] Re.Plus true;
       Re.Piece [Re.Space] Re.Star false] ++ Re.lit "francs" ]
  ∧ (∀ i pattern m amount_str a,
       amount_patterns !! i = Some pattern →
       Re.search true pattern body = Some m →
       Re.group1 m = Some amount_str →
       PyStr.float (PyStr.remove_char "," amount_str) = Some a →
       (∀ j earlier, (j < i)%nat → amount_patterns !! j = Some earlier →
          Re.search true earlier body = None
          ∨ ∃ m', Re.search true earlier body = Some m'
                  ∧ (s ← Re.group1 m'; PyStr.float (PyStr.remove_char "," s)) = None) →
       extract_amount body = a)
  ∧ ((∀ pattern, pattern ∈ amount_patterns →
        Re.search true pattern body = None
        ∨ ∃ m', Re.search true pattern body = Some m'
                ∧ (s ← Re.group1 m'; PyStr.float (PyStr.remove_char "," s)) = None) →
     extract_amount body = Q2Qc 0)
  ∧ (∀ P msg d sink0,
       msg !! "@body" = Some body →
       resolve_date P (default "" (msg !! "@date")) = Ok d →
       ∃ t, extract_transaction_details P msg sink0 = (Some t, sink0)
            ∧ tx_amount t = extract_amount body).
Proof.
  split_and!.
  - reflexivity.
  - intros i pattern m amount_str a Hi Hm Hg Ha Hearlier.
    apply (amount_loop_first _ _ _ i pattern); [done| |].
    + rewrite amount_of_pattern_unfold, Hm. simpl. by rewrite Hg.
    + intros j earlier Hj Hlookup. apply amount_of_pattern_none. by apply (Hearlier j).
  - intros Hnone. apply amount_loop_none. intros pattern Hin.
    apply amount_of_pattern_none. by apply Hnone.
  - intros P msg d sink0 Hbody Hdate. eexists. split; [by apply extract_success|]. done.
Qed.

(** The patterns before a given one yield nothing on a concrete body. *)
Ltac earlier_patterns_fail :=
  let j := fresh "j" in
  let earlier := fresh "earlier" in
  let Hj := fresh "Hj" in
  let Hlookup := fresh "Hlookup" in
  intros j earlier Hj Hlookup;
  repeat (destruct j as [|j];
          [ injection Hlookup as <-;
            first [ left; vm_compute; reflexivity
                  | right; eexists; split; vm_compute; reflexivity ]
          | ]);
  simpl in Hj; lia.

(** One body for each of the five patterns to decide, and one that none of
    them matches. On the second body the capture of the first pattern,
    1.2.3, does not parse; on the third, the lone dot after RWF does not. *)
Lemma amount_extraction_first_parse_witness :
  this (extract_amount "You have received rwf 1,500 from JOHN") = (1500 # 1)%Q
  ∧ this (extract_amount "RWF 1.2.3 sent, 5,000.5 RWF left") = (10001 # 2)%Q
  ∧ this (extract_amount "RWF . Amount: rwf 700") = (700 # 1)%Q
  ∧ this (extract_amount "AMOUNT: 7,500 paid") = (7500 # 1)%Q
  ∧ this (extract_amount "pay 300 Francs") = (300 # 1)%Q
  ∧ this (extract_amount "Hello, how are you?") = (0 # 1)%Q.
Proof.
  split_and!.
  - destruct (amount_extraction_first_parse "You have received rwf 1,500 from JOHN")
      as (_ & Hfirst & _).
    eapply eq_trans; [eapply (f_equal this), (Hfirst 0%nat);
      [reflexivity | reflexivity | reflexivity | reflexivity | earlier_patterns_fail]|].
    by vm_compute.
  - destruct (amount_extraction_first_parse "RWF 1.2.3 sent, 5,000.5 RWF left")
      as (_ & Hfirst & _).
    eapply eq_trans; [eapply (f_equal this), (Hfirst 1%nat);
      [reflexivity | reflexivity | reflexivity | reflexivity | earlier_patterns_fail]|].
    by vm_compute.
  - destruct (amount_extraction_first_parse "RWF . Amount: rwf 700")
      as (_ & Hfirst & _).
    eapply eq_trans; [eapply (f_equal this), (Hfirst 2%nat);
      [reflexivity | reflexivity | reflexivity | reflexivity | earlier_patterns_fail]|].
    by vm_compute.
  - destruct (amount_extraction_first_parse "AMOUNT: 7,500 paid")
      as (_ & Hfirst & _).
    eapply eq_trans; [eapply (f_equal this), (Hfirst 3%nat);
      [reflexivity | reflexivity | reflexivity | reflexivity | earlier_patterns_fail]|].
    by vm_compute.
  - destruct (amount_extraction_first_parse "pay 300 Francs")
      as (_ & Hfirst & _).
    eapply eq_trans; [eapply (f_equal this), (Hfirst 4%nat);
      [reflexivity | reflexivity | reflexivity | reflexivity | earlier_patterns_fail]|].
    by vm_compute.
  - destruct (amount_extraction_first_parse "Hello, how are you?")
      as (_ & _ & Hnone & _).
    rewrite Hnone; [by vm_compute|].
    intros pattern Hin. unfold amount_patterns in Hin.
    rewrite !elem_of_cons, elem_of_nil in Hin.
    destruct Hin as [->|[->|[->|[->|[->|[]]]]]]; left; vm_compute; reflexivity.
Defined.

(** The second pattern gives the amount when the capture of the first one
    does not parse; without any number the amount is 0. *)
Example amount_samples :
  map (λ body, this (extract_amount body))
    ["RWF 1.2.3 sent, 5,000.5 RWF left"; "Amount: 7,500 paid"; "pay 300 francs";
     "RWF 1,250.00"; "Hello, how are you?"; "RWF . and amount: .."]
  = [(10001 # 2); (7500 # 1); (300 # 1); (1250 # 1); (0 # 1); (0 # 1)]%Q.
Proof. by vm_compute. Qed.

(** ** Statistics *)

Local Open Scope Qc_scope.

Section WeightedSum.

Context `{Countable K} {V : Type}.
Implicit Types (w : K → V → Qc) (d : gmap K V).

Lemma weighted_sum_empty w : weighted_sum w (∅ : gmap K V) = 0.
Proof. apply map_fold_empty. Qed.

Lemma weighted_sum_insert w d k v :
  d !! k = None → weighted_sum w (<[k:=v]> d) = w k v + weighted_sum w d.
Proof.
  intros Hfresh. unfold weighted_sum.
  rewrite (map_fold_insert_L (λ k v acc, w k v + acc)); [done| |done].
  intros. ring.
Qed.

Lemma weighted_sum_insert_delete w d k v :
  weighted_sum w (<[k:=v]> d) = w k v + weighted_sum w (delete k d).
Proof.
  rewrite <-insert_delete_eq. apply weighted_sum_insert, lookup_delete_eq.
Qed.

Lemma weighted_sum_delete w d k :
  weighted_sum w d = default 0 (w k <$> d !! k) + weighted_sum w (delete k d).
Proof.
  destruct (d !! k) as [v|] eqn:Hk; simpl.
  - rewrite <-weighted_sum_insert_delete. by rewrite insert_id.
  - rewrite delete_id by done. ring.
Qed.

Lemma weighted_sum_ext w1 w2 d :
  (∀ k v, w1 k v = w2 k v) → weighted_sum w1 d = weighted_sum w2 d.
Proof.
  intros Hext. unfold weighted_sum.
  induction d as [|k v d Hfresh Hfold IH] using map_first_key_ind.
  - by rewrite !map_fold_empty.
  - rewrite !(map_fold_insert_first_key _ _ _ _ _ Hfresh Hfold). by rewrite Hext, IH.
Qed.

Lemma weighted_sum_zero d : weighted_sum (λ _ _, 0) d = 0.
Proof.
  unfold weighted_sum. induction d as [|k v d Hfresh Hfold IH] using map_first_key_ind.
  - by rewrite map_fold_empty.
  - rewrite (map_fold_insert_first_key _ _ _ _ _ Hfresh Hfold), IH. ring.
Qed.

End WeightedSum.

Section UpdateFrom.

Context `{Countable K} {V : Type}.
Variables (key : K → string) (val : V → stat).
Hypothesis key_inj : Inj (=) (=) key.

(** The entries the loop writes. *)
Lemma update_from_lookup_key (d : gmap K V) stats k :
  update_from key val d stats !! key k
  = match d !! k with Some v => Some (val v) | None => stats !! key k end.
Proof.
  unfold update_from.
  apply (map_fold_weak_ind (λ r m, r !! key k
           = match m !! k with Some v => Some (val v) | None => stats !! key k end)).
  - by rewrite lookup_empty.
  - intros i x m r Hfresh IH. destruct (decide (i = k)) as [->|Hne].
    + by rewrite !lookup_insert_eq.
    + rewrite !lookup_insert_ne; [done|done|]. intros Heq. by apply key_inj in Heq.
Qed.

(** The entries the loop leaves alone. *)
Lemma update_from_lookup_other (d : gmap K V) stats j :
  (∀ k, key k ≠ j) → update_from key val d stats !! j = stats !! j.
Proof.
  intros Hother. unfold update_from.
  apply (map_fold_weak_ind (λ r m, r !! j = stats !! j)); [done|].
  intros i x m r Hfresh IH. by rewrite lookup_insert_ne.
Qed.

(** On fresh keys the loop adds the weights of the entries it writes. *)
Lemma weighted_sum_update_from (w : string → stat → Qc) (d : gmap K V) stats :
  (∀ k, stats !! key k = None) →
  weighted_sum w (update_from key val d stats)
  = weighted_sum w stats + weighted_sum (λ k v, w (key k) (val v)) d.
Proof.
  intros Hfresh. unfold update_from.
  apply (map_fold_weak_ind (λ r m,
           (∀ k, r !! key k = val <$> m !! k)
           ∧ weighted_sum w r
             = weighted_sum w stats + weighted_sum (λ k v, w (key k) (val v)) m)).
  - split.
    + intros k. by rewrite lookup_empty, Hfresh.
    + rewrite weighted_sum_empty. ring.
  - intros i x m r Hi [Hlookup Hsum]. split.
    + intros k. destruct (decide (i = k)) as [->|Hne].
      * by rewrite !lookup_insert_eq.
      * rewrite !lookup_insert_ne; [done|done|]. intros Heq. by apply key_inj in Heq.
    + rewrite !weighted_sum_insert; [|done|by rewrite Hlookup, Hi].
      rewrite Hsum. ring.
Qed.

End UpdateFrom.

(** The counts of [value_counts] add up to the number of rows. *)
Lemma value_counts_total `{Countable K} (l : list K) :
  weighted_sum (λ _ n, Qc_of_Z (Z.of_nat n)) (value_counts l)
  = Qc_of_Z (Z.of_nat (length l)).
Proof.
  induction l as [|k l IH].
  { change (Z.of_nat (length (@nil K))) with 0%Z. rewrite Z2Qc_inj_0.
    apply weighted_sum_empty. }
  unfold value_counts in *. cbn [foldr length].
  set (m := foldr (λ k m, <[k := S (default O (m !! k))]> m) ∅ l) in *.
  rewrite weighted_sum_insert_delete.
  rewrite (Nat2Z.inj_succ (length l)), <-Z.add_1_l, Z2Qc_inj_add, <-IH.
  rewrite (weighted_sum_delete _ m k).
  destruct (m !! k) as [n|]; cbn [default fmap option_fmap option_map]; unfold id.
  - rewrite Nat2Z.inj_succ, <-Z.add_1_l, Z2Qc_inj_add. ring.
  - change (Z.of_nat 1) with 1%Z. ring.
Qed.

(** The sums of [groupby_sum] add up to the sum of the column. *)
Lemma groupby_sum_total `{Countable K} (rows : list (K * Qc)) :
  weighted_sum (λ _ x, x) (groupby_sum rows) = series_sum rows.*2.
Proof.
  induction rows as [|[k a] rows IH]; [apply weighted_sum_empty|].
  unfold groupby_sum, series_sum in *. cbn [foldr fmap list_fmap fst snd].
  set (m := foldr (λ kv m, <[kv.1 := kv.2 + default 0 (m !! kv.1)]> m) ∅ rows) in *.
  rewrite weighted_sum_insert_delete, <-IH.
  rewrite (weighted_sum_delete _ m k).
  destruct (m !! k) as [x|]; cbn [default fmap option_fmap option_map]; unfold id; ring.
Qed.

(** ** Keys of the snapshot *)

Lemma append_inj p a b : p +:+ a = p +:+ b → a = b.
Proof.
  induction p as [|c p IH]; [done|]. rewrite !append_cons. intros [= Heq]. by apply IH.
Qed.

Lemma startswith_append p s : PyStr.startswith p (p +:+ s) = true.
Proof. apply startswith_spec. by exists s. Qed.

(** A key that does not start with [p] is none of the keys [p +:+ s]. *)
Lemma prefixed_key_ne p s j : PyStr.startswith p j = false → p +:+ s ≠ j.
Proof. intros Hj <-. by rewrite startswith_append in Hj. Qed.

Global Instance count_category_key_inj : Inj (=) (=) count_category_key.
Proof. intros a b. apply append_inj. Qed.

Global Instance amount_category_key_inj : Inj (=) (=) amount_category_key.
Proof. intros a b. apply append_inj. Qed.

Global Instance count_type_key_inj : Inj (=) (=) count_type_key.
Proof. intros [] []; by vm_compute. Qed.

Lemma count_type_key_prefix t :
  PyStr.startswith "count_" (count_type_key t) = true
  ∧ PyStr.startswith "count_category_" (count_type_key t) = false
  ∧ PyStr.startswith "amount_category_" (count_type_key t) = false.
Proof. by destruct t. Qed.

(** The three fixed keys are none of the keys built from a prefix they do
    not start with. *)
Lemma fixed_keys_fresh (a b c : stat) p s :
  PyStr.startswith p "avg_transaction_amount" = false →
  PyStr.startswith p "total_amount" = false →
  PyStr.startswith p "total_transactions" = false →
  fixed_entries a b c !! (p +:+ s) = None.
Proof.
  intros Ha Hb Hc. unfold fixed_entries.
  rewrite !lookup_insert_ne, lookup_empty;
    [done | | |]; apply not_eq_sym, prefixed_key_ne; done.
Qed.

Lemma fixed_keys_sum (w : string → stat → Qc) (a b c : stat) :
  weighted_sum w (fixed_entries a b c)
  = w "avg_transaction_amount" c + w "total_amount" b + w "total_transactions" a.
Proof.
  unfold fixed_entries. rewrite !weighted_sum_insert, weighted_sum_empty; [ring|..].
  - apply lookup_empty.
  - by rewrite lookup_insert_ne, lookup_empty.
  - by rewrite !lookup_insert_ne, lookup_empty.
Qed.

(** The snapshot of a non-empty batch. *)
Lemma calculate_stats_cons t txs0 :
  let txs := t :: txs0 in
  let amounts := tx_amount <$> txs in
  calculate_stats txs =
    Some (with_category_amounts
            (groupby_sum ((λ t, (tx_category t, tx_amount t)) <$> txs))
            (with_category_counts (value_counts (tx_category <$> txs))
               (with_type_counts (value_counts (tx_type <$> txs))
                  (fixed_entries
                     (IntStat (Z.of_nat (length txs)))
                     (FloatStat (series_sum amounts))
                     (FloatStat (series_sum amounts
                                 / Qc_of_Z (Z.of_nat (length amounts)))))))).
Proof. reflexivity. Qed.

Section Snapshot.

Variables (a b c : stat).
Variables (type_counts : gmap transaction_type nat) (category_counts : gmap string nat)
          (category_amounts : gmap string Qc).

Lemma type_keys_fresh t : fixed_entries a b c !! count_type_key t = None.
Proof. apply fixed_keys_fresh; reflexivity. Qed.

Lemma category_count_keys_fresh category :
  with_type_counts type_counts (fixed_entries a b c) !! count_category_key category = None.
Proof.
  unfold with_type_counts. rewrite update_from_lookup_other.
  - apply fixed_keys_fresh; reflexivity.
  - intros t. apply not_eq_sym, prefixed_key_ne, count_type_key_prefix.
Qed.

Lemma category_amount_keys_fresh category :
  with_category_counts category_counts
    (with_type_counts type_counts (fixed_entries a b c))
    !! amount_category_key category = None.
Proof.
  unfold with_category_counts, with_type_counts. rewrite !update_from_lookup_other.
  - apply fixed_keys_fresh; reflexivity.
  - intros t. apply not_eq_sym, prefixed_key_ne, count_type_key_prefix.
  - intros k. apply not_eq_sym, prefixed_key_ne. reflexivity.
Qed.

(** The loops leave the three fixed entries as they were written. *)
Lemma fixed_key_kept j :
  PyStr.startswith "count_" j = false →
  PyStr.startswith "amount_category_" j = false →
  with_category_amounts category_amounts
    (with_category_counts category_counts
       (with_type_counts type_counts (fixed_entries a b c))) !! j
  = fixed_entries a b c !! j.
Proof.
  intros Hcount Hamount.
  unfold with_category_amounts, with_category_counts, with_type_counts.
  rewrite !update_from_lookup_other; [done|..].
  - intros t. unfold count_type_key. by apply prefixed_key_ne.
  - intros k. unfold count_category_key. apply prefixed_key_ne.
    destruct (PyStr.startswith "count_category_" j) eqn:Hj; [|done].
    apply startswith_spec in Hj as [post ->]. discriminate Hcount.
  - intros k. by apply prefixed_key_ne.
Qed.

Lemma count_category_sum :
  sum_prefixed "count_category_"
    (with_category_amounts category_amounts
       (with_category_counts category_counts
          (with_type_counts type_counts (fixed_entries a b c))))
  = weighted_sum (λ _ n, Qc_of_Z (Z.of_nat n)) category_counts.
Proof.
  unfold sum_prefixed, with_category_amounts.
  rewrite (weighted_sum_update_from _ _ _ _ _ _ category_amount_keys_fresh).
  unfold with_category_counts.
  rewrite (weighted_sum_update_from _ _ _ _ _ _ category_count_keys_fresh).
  unfold with_type_counts.
  rewrite (weighted_sum_update_from _ _ _ _ _ _ type_keys_fresh).
  rewrite fixed_keys_sum.
  rewrite (weighted_sum_ext _ (λ _ _, 0) type_counts) by (by intros []).
  rewrite (weighted_sum_ext _ (λ _ _, 0) category_amounts) by done.
  rewrite (weighted_sum_ext _ (λ _ n, Qc_of_Z (Z.of_nat n)) category_counts)
    by (intros k n; unfold prefixed_value, count_category_key;
        by rewrite startswith_append).
  rewrite !weighted_sum_zero.
  change (prefixed_value "count_category_" "avg_transaction_amount" c) with 0.
  change (prefixed_value "count_category_" "total_amount" b) with 0.
  change (prefixed_value "count_category_" "total_transactions" a) with 0.
  ring.
Qed.

Lemma amount_category_sum :
  sum_prefixed "amount_category_"
    (with_category_amounts category_amounts
       (with_category_counts category_counts
          (with_type_counts type_counts (fixed_entries a b c))))
  = weighted_sum (λ _ x, x) category_amounts.
Proof.
  unfold sum_prefixed, with_category_amounts.
  rewrite (weighted_sum_update_from _ _ _ _ _ _ category_amount_keys_fresh).
  unfold with_category_counts.
  rewrite (weighted_sum_update_from _ _ _ _ _ _ category_count_keys_fresh).
  unfold with_type_counts.
  rewrite (weighted_sum_update_from _ _ _ _ _ _ type_keys_fresh).
  rewrite fixed_keys_sum.
  rewrite (weighted_sum_ext _ (λ _ _, 0) type_counts) by (by intros []).
  rewrite (weighted_sum_ext _ (λ _ _, 0) category_counts) by done.
  rewrite (weighted_sum_ext _ (λ _ x, x) category_amounts)
    by (intros k x; unfold prefixed_value, amount_category_key;
        by rewrite startswith_append).
  rewrite !weighted_sum_zero.
  change (prefixed_value "amount_category_" "avg_transaction_amount" c) with 0.
  change (prefixed_value "amount_category_" "total_amount" b) with 0.
  change (prefixed_value "amount_category_" "total_transactions" a) with 0.
  ring.
Qed.

End Snapshot.

(** C8. For every non-empty batch [calculate_stats] returns a snapshot that
    reconciles: the values under the keys [amount_category_*] add up to the
    value under [total_amount], and the values under the keys
    [count_category_*] add up to the value under [total_transactions]
    (amounts being exact, the equalities are exact). *)
Theorem stats_reconcile (txs : list transaction) :
  txs ≠ [] →
  ∃ stats total_amount total_transactions,
    calculate_stats txs = Some stats
    ∧ stats !! "total_amount" = Some (FloatStat total_amount)
    ∧ stats !! "total_transactions" = Some (IntStat total_transactions)
    ∧ total_transactions = Z.of_nat (length txs)
    ∧ sum_prefixed "amount_category_" stats = total_amount
    ∧ sum_prefixed "count_category_" stats = Qc_of_Z total_transactions.
Proof.
  destruct txs as [|t txs0]; [done|]. intros _.
  eexists _, (series_sum (tx_amount <$> t :: txs0)), (Z.of_nat (length (t :: txs0))).
  split; [apply calculate_stats_cons|]. split_and!.
  - rewrite fixed_key_kept by reflexivity. unfold fixed_entries.
    by rewrite lookup_insert_ne, lookup_insert_eq by done.
  - rewrite fixed_key_kept by reflexivity. unfold fixed_entries.
    by rewrite !lookup_insert_ne, lookup_insert_eq by done.
  - reflexivity.
  - rewrite amount_category_sum, groupby_sum_total.
    by rewrite <-list_fmap_compose.
  - rewrite count_category_sum, value_counts_total. by rewrite length_fmap.
Qed.

Lemma stats_reconcile_witness :
  sample_batch ≠ []
  ∧ ∃ stats total_amount total_transactions,
      calculate_stats sample_batch = Some stats
      ∧ stats !! "total_amount" = Some (FloatStat total_amount)
      ∧ stats !! "total_transactions" = Some (IntStat total_transactions)
      ∧ total_transactions = Z.of_nat (length sample_batch)
      ∧ sum_prefixed "amount_category_" stats = total_amount
      ∧ sum_prefixed "count_category_" stats = Qc_of_Z total_transactions.
Proof.
  assert (Hne : sample_batch ≠ []) by discriminate.
  split; [exact Hne | exact (stats_reconcile sample_batch Hne)].
Defined.

(** The snapshot of the sample batch, entry by entry. *)
Example sample_snapshot :
  (λ stats, (λ key, (key, (λ v, this (stat_value v)) <$> stats !! key)) <$>
     ["total_transactions"; "total_amount"; "avg_transaction_amount";
      "count_cash_in"; "count_cash_out"; "count_other";
      "count_category_food"; "count_category_transport";
      "amount_category_food"; "amount_category_transport"])
  <$> calculate_stats sample_batch
  = Some [ ("total_transactions", Some (3 # 1)); ("total_amount", Some (29 # 2));
           ("avg_transaction_amount", Some (29 # 6));
           ("count_cash_in", Some (2 # 1)); ("count_cash_out", Some (1 # 1));
           ("count_other", None);
           ("count_category_food", Some (2 # 1)); ("count_category_transport", Some (1 # 1));
           ("amount_category_food", Some (15 # 2));
           ("amount_category_transport", Some (7 # 1)) ]%Q.
Proof. by vm_compute. Qed.

(** C9. On the empty batch [calculate_stats] returns the empty snapshot: it
    has no key at all, in particular none for a count or an amount, and the
    mean, which does not exist for an empty series, is never computed. *)
Theorem calculate_stats_empty :
  calculate_stats [] = Some ∅
  ∧ (∀ stats, calculate_stats [] = Some stats → ∀ key, stats !! key = None)
  ∧ series_mean (tx_amount <$> []) = None.
Proof.
  split_and!; [reflexivity| |reflexivity].
  intros stats [= <-] key. apply lookup_empty.
Qed.

(** * Further properties of the processor *)

(** ** The regular-expression matcher *)

Section FirstDown.

Context {A : Type}.
Implicit Types (k : nat → option A).

Lemma first_down_Some k lo n r :
  Re.first_down k lo n = Some r → ∃ j, (lo ≤ j ≤ n)%nat ∧ k j = Some r.
Proof.
  induction n as [|n IH]; simpl.
  - destruct (Nat.ltb_spec 0 lo); [done|]. destruct (k O) eqn:Hk; [|done].
    intros [= <-]. exists O. split; [lia|done].
  - destruct (Nat.ltb_spec (S n) lo); [done|]. destruct (k (S n)) eqn:Hk.
    + intros [= <-]. exists (S n). split; [lia|done].
    + intros (j & Hj & Hr)%IH. exists j. split; [lia|done].
Qed.

Lemma first_down_is_Some k lo n j :
  (lo ≤ j ≤ n)%nat → is_Some (k j) → is_Some (Re.first_down k lo n).
Proof.
  intros Hj Hk. induction n as [|n IH]; simpl.
  - assert (j = O) as -> by lia. destruct (Nat.ltb_spec 0 lo); [lia|].
    destruct Hk as [r ->]. by eexists.
  - destruct (Nat.ltb_spec (S n) lo); [lia|].
    destruct (k (S n)) eqn:Hn; [by eexists|].
    destruct (decide (j = S n)) as [->|Hne].
    + rewrite Hn in Hk. by destruct Hk.
    + apply IH. lia.
Qed.

End FirstDown.

Lemma take_drop_string n s : PyStr.take n s +:+ PyStr.drop n s = s.
Proof.
  revert s. induction n as [|n IH]; intros [|c s]; simpl; try done.
  by rewrite append_cons, IH.
Qed.

Lemma append_assoc s t u : (s +:+ t) +:+ u = s +:+ t +:+ u.
Proof. induction s as [|c s IH]; [done|]. by rewrite !append_cons, IH. Qed.

Lemma append_empty_r s : s +:+ EmptyString = s.
Proof. induction s as [|c s IH]; [done|]. by rewrite append_cons, IH. Qed.

Lemma all_chars_app f s t :
  PyStr.all_chars f (s +:+ t) = PyStr.all_chars f s && PyStr.all_chars f t.
Proof.
  induction s as [|c s IH]; [done|]. rewrite append_cons. simpl.
  by rewrite IH, andb_assoc.
Qed.

(** A prefix no longer than the run is made of accepted characters. *)
Lemma run_length_take f s j :
  (j ≤ Re.run_length f s)%nat →
  PyStr.all_chars f (PyStr.take j s) = true ∧ String.length (PyStr.take j s) = j.
Proof.
  revert s. induction j as [|j IH]; intros s Hj; [by destruct s|].
  destruct s as [|c s]; simpl in *; [lia|].
  destruct (f c); [|lia]. destruct (IH s) as [Hall Hlen]; [lia|].
  rewrite Hall, Hlen. done.
Qed.

Lemma occurs_in_trans a b c : occurs_in a b → occurs_in b c → occurs_in a c.
Proof.
  intros (p1 & q1 & ->) (p2 & q2 & ->). exists (p2 +:+ p1), (q1 +:+ q2).
  by rewrite !append_assoc.
Qed.

Lemma occurs_in_refl a : occurs_in a a.
Proof. exists EmptyString, EmptyString. by rewrite append_empty_r. Qed.

(** What a match anchored at the start of [s] returns: [group0] is a prefix
    of [s]; [group1], when set, is a part of [group0] captured by a group
    piece of the pattern, made of characters of that piece's set and at
    least as long as its quantifier demands. *)
Lemma match_here_Some ignorecase ps s m :
  Re.match_here ignorecase ps s = Some m →
  (∃ rest, s = Re.group0 m +:+ rest)
  ∧ ∀ g, Re.group1 m = Some g →
      occurs_in g (Re.group0 m)
      ∧ ∃ p, p ∈ ps ∧ Re.p_group p = true
             ∧ PyStr.all_chars (Re.set_matches ignorecase (Re.p_set p)) g = true
             ∧ (Re.min_count (Re.p_quant p) ≤ String.length g)%nat.
Proof.
  revert s m. induction ps as [|p ps IH]; intros s m; simpl.
  - intros [= <-]. split; [by exists s|]. done.
  - intros (j & Hj & Hk)%first_down_Some.
    destruct (Re.match_here ignorecase ps (PyStr.drop j s)) as [m'|] eqn:Hrest; [|done].
    injection Hk as <-. destruct (IH _ _ Hrest) as [[rest Hprefix] Hgroup]. simpl. split.
    + exists rest. rewrite append_assoc, <-Hprefix. by rewrite take_drop_string.
    + assert (Hrun : (j ≤ Re.run_length (Re.set_matches ignorecase (Re.p_set p)) s)%nat).
      { destruct Hj as [_ Hj]. revert Hj. unfold Re.max_count.
        destruct (Re.p_quant p); lia. }
      destruct (run_length_take _ _ _ Hrun) as [Hall Hlen].
      intros g. destruct (Re.p_group p) eqn:Hgrp.
      * intros [= <-]. split; [by exists EmptyString, (Re.group0 m')|].
        exists p. split_and!; [by apply elem_of_cons; left|done|done|lia].
      * intros Hg. destruct (Hgroup g Hg) as [Hocc (q & Hq & Hrestq)]. split.
        -- destruct Hocc as (a & b & ->).
           exists (PyStr.take j s +:+ a), b. by rewrite append_assoc.
        -- exists q. split; [by apply elem_of_cons; right|done].
Qed.

(** A successful search matched somewhere in the text. *)
Lemma search_Some ignorecase ps s m :
  Re.search ignorecase ps s = Some m →
  ∃ pre post, s = pre +:+ post ∧ Re.match_here ignorecase ps post = Some m.
Proof.
  induction s as [|c s IH]; simpl.
  - destruct (Re.match_here ignorecase ps EmptyString) eqn:Hm; [|done].
    intros [= <-]. by exists EmptyString, EmptyString.
  - destruct (Re.match_here ignorecase ps (String c s)) eqn:Hm.
    + intros [= <-]. by exists EmptyString, (String c s).
    + intros (pre & post & -> & Hpost)%IH. by exists (String c pre), post.
Qed.

Lemma search_occurs ignorecase ps s m :
  Re.search ignorecase ps s = Some m → occurs_in (Re.group0 m) s.
Proof.
  intros (pre & post & -> & Hm)%search_Some.
  destruct (match_here_Some _ _ _ _ Hm) as [[rest ->] _]. by exists pre, rest.
Qed.

(** ** Amounts are never negative *)

Lemma digit_value_nonneg c : PyStr.is_digit c = true → (0 ≤ PyStr.digit_value c)%Z.
Proof.
  unfold PyStr.is_digit, PyStr.in_range, PyStr.digit_value.
  intros [H1 _]%andb_true_iff. apply N.leb_le in H1. lia.
Qed.

Lemma digits_value_nonneg acc s :
  (0 ≤ acc)%Z → PyStr.all_chars PyStr.is_digit s = true →
  (0 ≤ PyStr.digits_value acc s)%Z.
Proof.
  revert acc. induction s as [|c s IH]; intros acc Hacc; simpl; [done|].
  intros [Hc Hs]%andb_true_iff. apply IH; [|done].
  pose proof (digit_value_nonneg c Hc). lia.
Qed.

Lemma decimal_nonneg i f :
  PyStr.all_chars PyStr.is_digit (i +:+ f) = true → 0 ≤ PyStr.decimal i f.
Proof.
  intros Hdigits. pose proof (digits_value_nonneg 0 _ (Z.le_refl 0) Hdigits) as Hn.
  unfold PyStr.decimal, Qcle. cbn [this Q2Qc]. rewrite !Qred_correct.
  unfold Qle. simpl. lia.
Qed.

Lemma float_nonneg s a : PyStr.float s = Some a → 0 ≤ a.
Proof.
  unfold PyStr.float. destruct (PyStr.split_dot s) as [i [f|]].
  - destruct (PyStr.all_chars PyStr.is_digit i) eqn:Hi; [|done].
    destruct (PyStr.all_chars PyStr.is_digit f) eqn:Hf; [|done]. simpl.
    destruct (negb _); [|done]. intros [= <-]. apply decimal_nonneg.
    by rewrite all_chars_app, Hi, Hf.
  - destruct (PyStr.all_chars PyStr.is_digit i) eqn:Hi; [|done]. simpl.
    destruct (negb _); [|done]. intros [= <-]. apply decimal_nonneg.
    by rewrite append_empty_r.
Qed.

Lemma amount_of_pattern_nonneg pattern body a :
  amount_of_pattern pattern body = Some a → 0 ≤ a.
Proof.
  unfold amount_of_pattern. destruct (Re.search true pattern body) as [m|]; [|done].
  destruct (Re.group1 m); [|done]. apply float_nonneg.
Qed.

Lemma amount_loop_nonneg patterns body amount0 :
  0 ≤ amount0 → 0 ≤ amount_loop patterns body amount0.
Proof.
  intros H0. induction patterns as [|p rest IH]; simpl; [done|].
  destruct (amount_of_pattern p body) eqn:Ha; [|done].
  by eapply amount_of_pattern_nonneg.
Qed.

(** X1. The amount extracted from a body is never negative, whatever the
    body says: the patterns capture digits, commas and dots only, so a sign
    in front of a number is never part of the amount. *)
Theorem extract_amount_nonneg (body : string) : 0 ≤ extract_amount body.
Proof. apply amount_loop_nonneg. done. Qed.

(** A minus sign in front of the number is dropped, or hides the number. *)
Example negative_amount_sample :
  this (extract_amount "Balance: -1,250.75 RWF") = (5003 # 4)%Q
  ∧ this (extract_amount "You have received RWF -500 from JOHN") = (0 # 1)%Q.
Proof. by vm_compute. Qed.

(** ** References *)

Lemma reference_loop_Some patterns body r :
  reference_loop patterns body = Some r →
  ∃ pattern m, pattern ∈ patterns
               ∧ Re.search true pattern body = Some m ∧ Re.group1 m = Some r.
Proof.
  induction patterns as [|p rest IH]; simpl; [done|].
  destruct (Re.search true p body) as [m|] eqn:Hsearch.
  - intros Hr. exists p, m. split_and!; [by apply elem_of_cons; left|done|done].
  - intros (pattern & m & Hin & Hrest)%IH. exists pattern, m.
    split; [by apply elem_of_cons; right|done].
Qed.

(** The only group of a reference pattern is its word. *)
Lemma ref_patterns_group pattern p :
  pattern ∈ ref_patterns → p ∈ pattern → Re.p_group p = true →
  p = Re.Piece [Re.Word] Re.Plus true.
Proof.
  unfold ref_patterns, Re.lit, label_sep. simpl. intros Hin Hp Hgroup.
  rewrite !elem_of_cons, elem_of_nil in Hin.
  destruct Hin as [->|[->|[->|[]]]];
    rewrite !elem_of_cons, elem_of_nil in Hp;
    repeat (destruct Hp as [->|Hp]; [by (discriminate Hgroup || reflexivity)|]);
    done.
Qed.

Lemma all_chars_ext f g s :
  (∀ c, f c = g c) → PyStr.all_chars f s = PyStr.all_chars g s.
Proof. intros Hfg. induction s as [|c s IH]; simpl; [done|]. by rewrite Hfg, IH. Qed.

(** X2. A reference, when one is extracted, is a non-empty word (letters,
    digits and underscores only) that occurs in the body. *)
Theorem reference_is_word (body r : string) :
  extract_reference body = Some r →
  r ≠ EmptyString ∧ PyStr.all_chars PyStr.is_word r = true ∧ occurs_in r body.
Proof.
  intros (pattern & m & Hin & Hsearch & Hgroup)%reference_loop_Some.
  pose proof (search_occurs _ _ _ _ Hsearch) as Hocc.
  destruct (search_Some _ _ _ _ Hsearch) as (pre & post & _ & Hmatch).
  destruct (match_here_Some _ _ _ _ Hmatch) as [_ Hg].
  destruct (Hg r Hgroup) as [Hsub (p & Hp & Hpg & Hall & Hlen)].
  rewrite (ref_patterns_group _ _ Hin Hp Hpg) in Hall, Hlen. simpl in Hlen.
  split_and!.
  - intros ->. simpl in Hlen. lia.
  - rewrite <-Hall. apply all_chars_ext. intros c. simpl. by rewrite orb_false_r.
  - by eapply occurs_in_trans.
Qed.

Lemma reference_is_word_witness :
  extract_reference c2_body = Some "erence"
  ∧ "erence" ≠ EmptyString
  ∧ PyStr.all_chars PyStr.is_word "erence" = true
  ∧ occurs_in "erence" c2_body.
Proof.
  assert (H : extract_reference c2_body = Some "erence") by (by vm_compute).
  split; [exact H | exact (reference_is_word c2_body "erence" H)].
Defined.

Lemma match_here_cons ignorecase p ps s :
  Re.match_here ignorecase (p :: ps) s =
  Re.first_down
    (λ n,
       match Re.match_here ignorecase ps (PyStr.drop n s) with
       | Some m =>
           Some (Re.Matched (PyStr.take n s +:+ Re.group0 m)
                   (if Re.p_group p then Some (PyStr.take n s) else Re.group1 m))
       | None => None
       end)
    (Re.min_count (Re.p_quant p))
    (Re.max_count (Re.p_quant p)
       (Re.run_length (Re.set_matches ignorecase (Re.p_set p)) s)).
Proof. reflexivity. Qed.

(** A literal piece consumes one character of its set. *)
Lemma match_here_once ignorecase set g ps s :
  Re.match_here ignorecase (Re.Piece set Re.Once g :: ps) s =
  match s with
  | EmptyString => None
  | String c s' =>
      if Re.set_matches ignorecase set c then
        match Re.match_here ignorecase ps s' with
        | Some m =>
            Some (Re.Matched (String c (Re.group0 m))
                    (if g then Some (String c EmptyString) else Re.group1 m))
        | None => None
        end
      else None
  end.
Proof.
  rewrite match_here_cons. destruct s as [|c s']; [reflexivity|].
  cbn [Re.p_set Re.p_quant Re.p_group Re.run_length Re.min_count Re.max_count].
  destruct (Re.set_matches ignorecase set c); [|reflexivity].
  cbn [Nat.min Re.first_down Nat.ltb Nat.leb PyStr.drop PyStr.take].
  by destruct (Re.match_here ignorecase ps s').
Qed.

(** A character that matches the letter e without regard to case. *)
Lemma matches_e_is_word c :
  Re.set_matches true [Re.Chr "e"] c = true →
  PyStr.is_word c = true ∧ Re.set_matches true label_sep c = false.
Proof.
  destruct c as [[] [] [] [] [] [] [] []]; by vm_compute.
Qed.

(** After the letters r, e, f the rest of a word matches the first pattern. *)
Lemma word_after_ref c s :
  PyStr.is_word c = true → Re.set_matches true label_sep c = false →
  is_Some (Re.match_here true
             [Re.Piece label_sep Re.Star false; Re.Piece [Re.Word] Re.Plus true]
             (String c s)).
Proof.
  intros Hword Hsep. rewrite match_here_cons.
  apply (first_down_is_Some _ _ _ O); [simpl; lia|].
  cbn [PyStr.drop PyStr.take]. rewrite match_here_cons.
  cbn [Re.p_set Re.p_quant Re.p_group Re.run_length Re.min_count Re.max_count].
  replace (Re.set_matches true [Re.Word] c) with true
    by (simpl; by rewrite Hword).
  set (n := Re.run_length _ s).
  assert (Hlast : is_Some (Re.first_down
            (λ n, match Re.match_here true [] (PyStr.drop n (String c s)) with
                  | Some m =>
                      Some (Re.Matched (PyStr.take n (String c s) +:+ Re.group0 m)
                              (Some (PyStr.take n (String c s))))
                  | None => None
                  end) 1 (S n))).
  { apply (first_down_is_Some _ _ _ (S n)); [lia|]. by eexists. }
  destruct Hlast as [m ->]. by eexists.
Qed.

Lemma first_pattern_matches_where_second_does s :
  is_Some (Re.match_here true
             (Re.lit "reference"
              ++ [Re.Piece label_sep Re.Star false; Re.Piece [Re.Word] Re.Plus true]) s) →
  is_Some (Re.match_here true
             (Re.lit "ref"
              ++ [Re.Piece label_sep Re.Star false; Re.Piece [Re.Word] Re.Plus true]) s).
Proof.
  unfold Re.lit. cbn [String.list_ascii_of_string fmap list_fmap app].
  rewrite !match_here_once.
  destruct s as [|c1 s]; [done|]. destruct (Re.set_matches true _ c1); [|by intros []].
  rewrite !match_here_once.
  destruct s as [|c2 s]; [done|]. destruct (Re.set_matches true _ c2); [|by intros []].
  rewrite !match_here_once.
  destruct s as [|c3 s]; [done|]. destruct (Re.set_matches true _ c3); [|by intros []].
  rewrite match_here_once.
  destruct s as [|c4 s]; [by intros []|].
  destruct (Re.set_matches true [Re.Chr "e"] c4) eqn:He; [|by intros []].
  intros _. destruct (matches_e_is_word _ He) as [Hword Hsep].
  destruct (word_after_ref c4 s Hword Hsep) as [m ->]. by eexists.
Qed.

Lemma search_is_Some_mono ps qs s :
  (∀ t, is_Some (Re.match_here true ps t) → is_Some (Re.match_here true qs t)) →
  is_Some (Re.search true ps s) → is_Some (Re.search true qs s).
Proof.
  intros Hmono. induction s as [|c s IH]; simpl.
  - destruct (Re.match_here true ps EmptyString) eqn:Hps; [|by intros []].
    intros _. destruct (Hmono EmptyString) as [m' ->]; [by rewrite Hps|]. by eexists.
  - destruct (Re.match_here true ps (String c s)) eqn:Hps.
    + intros _. destruct (Hmono (String c s)) as [m' ->]; [by rewrite Hps|]. by eexists.
    + intros Htail%IH. destruct (Re.match_here true qs (String c s)); [by eexists|done].
Qed.

(** X3. The second reference pattern, [reference[:\s]*(\w+)], never
    decides: wherever it matches, the first pattern, [ref[:\s]*(\w+)],
    matches too and is tried first. The extracted reference is the one the
    first and the third pattern alone give. *)
Theorem second_reference_pattern_is_dead (body : string) :
  (∀ p1 p2, ref_patterns !! 0%nat = Some p1 → ref_patterns !! 1%nat = Some p2 →
            is_Some (Re.search true p2 body) → is_Some (Re.search true p1 body))
  ∧ extract_reference body = reference_loop (take 1 ref_patterns ++ drop 2 ref_patterns) body.
Proof.
  assert (Hdead : is_Some (Re.search true
             (Re.lit "reference"
              ++ [Re.Piece label_sep Re.Star false; Re.Piece [Re.Word] Re.Plus true]) body) →
           is_Some (Re.search true
             (Re.lit "ref"
              ++ [Re.Piece label_sep Re.Star false; Re.Piece [Re.Word] Re.Plus true]) body)).
  { apply search_is_Some_mono, first_pattern_matches_where_second_does. }
  split.
  - intros p1 p2 [= <-] [= <-]. exact Hdead.
  - unfold extract_reference, ref_patterns. cbn [take drop app reference_loop].
    destruct (Re.search true (Re.lit "ref" ++ _) body) as [m|] eqn:H1; [done|].
    destruct (Re.search true (Re.lit "reference" ++ _) body) as [m|] eqn:H2; [|done].
    destruct Hdead as [m' Hm']; [by eexists|]. congruence.
Qed.

(** ** Phone numbers *)

Lemma rstrip_by_keep f c s :
  f c = false → PyStr.rstrip_by f (String c s) = String c (PyStr.rstrip_by f s).
Proof. intros Hc. simpl. rewrite Hc. by destruct (PyStr.rstrip_by f s). Qed.

(** [rstrip_by] removes a suffix of characters accepted by [f]. *)
Lemma rstrip_by_suffix f s :
  ∃ t, s = PyStr.rstrip_by f s +:+ t ∧ PyStr.all_chars f t = true.
Proof.
  induction s as [|c s (t & Hs & Ht)]; [by exists EmptyString|]. simpl.
  destruct (PyStr.rstrip_by f s) as [|d u] eqn:Hr.
  - destruct (f c) eqn:Hc.
    + exists (String c t). split; [by rewrite Hs at 1|]. simpl. by rewrite Hc, Ht.
    + exists t. split; [by rewrite Hs at 1|done].
  - exists t. split; [|done]. rewrite Hs at 1. by rewrite <-append_cons.
Qed.

(** What remains does not end with a character accepted by [f]. *)
Lemma rstrip_by_idemp f s :
  PyStr.rstrip_by f (PyStr.rstrip_by f s) = PyStr.rstrip_by f s.
Proof.
  induction s as [|c s IH]; [done|]. simpl.
  destruct (PyStr.rstrip_by f s) as [|d u] eqn:Hr.
  - destruct (f c) eqn:Hc; [done|]. simpl. by rewrite Hc.
  - change (PyStr.rstrip_by f (String c (String d u)) = String c (String d u)).
    cbn [PyStr.rstrip_by] in *. rewrite IH. reflexivity.
Qed.

Lemma all_chars_rstrip g f s :
  PyStr.all_chars g s = true → PyStr.all_chars g (PyStr.rstrip_by f s) = true.
Proof.
  destruct (rstrip_by_suffix f s) as (t & Hs & _). intros Hall.
  rewrite Hs, all_chars_app in Hall. by apply andb_true_iff in Hall as [? _].
Qed.

(** The match of the phone pattern at the start of a text. *)
Lemma phone_match_here s m :
  Re.match_here false phone_pattern s = Some m →
  ∃ c rest, Re.group0 m = String c rest
            ∧ (c = "+"%char ∨ c = "0"%char)
            ∧ PyStr.all_chars is_digit_or_space rest = true
            ∧ (9 ≤ String.length rest)%nat.
Proof.
  unfold phone_pattern. rewrite match_here_once.
  destruct s as [|c s]; [done|].
  destruct (Re.set_matches false [Re.Chr "+"; Re.Chr "0"] c) eqn:Hc; [|done].
  rewrite match_here_cons.
  destruct (Re.first_down _ _ _) as [m'|] eqn:Hdown; [|done].
  intros [= <-]. apply first_down_Some in Hdown as (j & Hj & Hk).
  cbn [Re.match_here] in Hk. injection Hk as <-.
  cbn [Re.p_set Re.p_quant Re.min_count Re.max_count] in Hj.
  destruct (run_length_take (Re.set_matches false [Re.Digit; Re.Space]) s j)
    as [Hall Hlen]; [lia|].
  exists c, (PyStr.take j s). cbn [Re.group0]. rewrite append_empty_r. split_and!.
  - reflexivity.
  - unfold Re.set_matches in Hc. cbn [existsb Re.item_matches] in Hc.
    rewrite orb_false_r in Hc.
    apply orb_true_iff in Hc as [Hc|Hc]; apply Ascii.eqb_eq in Hc; auto.
  - rewrite <-Hall. apply all_chars_ext. intros d. unfold is_digit_or_space. simpl.
    by rewrite orb_false_r.
  - lia.
Qed.

(** X4. A phone number, when one is extracted, starts with [+] or [0], has
    digits and blanks only after that, carries no blank at either end, and
    is a part of the body; the stripping may leave it shorter than the ten
    characters the pattern asks for. *)
Theorem phone_shape (body phone : string) :
  extract_phone body = Some phone →
  (∃ c rest, phone = String c rest
             ∧ (c = "+"%char ∨ c = "0"%char)
             ∧ PyStr.all_chars is_digit_or_space rest = true)
  ∧ PyStr.strip phone = phone
  ∧ occurs_in phone body.
Proof.
  unfold extract_phone.
  destruct (Re.search false phone_pattern body) as [m|] eqn:Hsearch; [|done].
  intros [= <-]. pose proof (search_occurs _ _ _ _ Hsearch) as Hocc.
  destruct (search_Some _ _ _ _ Hsearch) as (pre & post & _ & Hmatch).
  destruct (phone_match_here _ _ Hmatch) as (c & rest & Hg & Hc & Hrest & _).
  rewrite Hg in *.
  assert (Hnsp : PyStr.is_space c = false) by (by destruct Hc as [->| ->]).
  assert (Hstrip : PyStr.strip (String c rest)
                   = String c (PyStr.rstrip_by PyStr.is_space rest)).
  { unfold PyStr.strip. cbn [PyStr.lstrip_by]. rewrite Hnsp.
    by apply rstrip_by_keep. }
  rewrite Hstrip. split_and!.
  - exists c, (PyStr.rstrip_by PyStr.is_space rest).
    split_and!; [done|done|by apply all_chars_rstrip].
  - unfold PyStr.strip. cbn [PyStr.lstrip_by]. rewrite Hnsp.
    rewrite rstrip_by_keep by done. by rewrite rstrip_by_idemp.
  - eapply occurs_in_trans; [|exact Hocc].
    destruct (rstrip_by_suffix PyStr.is_space rest) as (t & Ht & _).
    exists EmptyString, t. by rewrite append_nil, append_cons, <-Ht.
Qed.

Lemma phone_shape_witness :
  extract_phone c2_body = Some "0244123456"
  ∧ (∃ c rest, "0244123456" = String c rest
               ∧ (c = "+"%char ∨ c = "0"%char)
               ∧ PyStr.all_chars is_digit_or_space rest = true)
  ∧ PyStr.strip "0244123456" = "0244123456"
  ∧ occurs_in "0244123456" c2_body.
Proof.
  assert (H : extract_phone c2_body = Some "0244123456") by (by vm_compute).
  split; [exact H | exact (phone_shape c2_body "0244123456" H)].
Defined.

(** A zero followed by nine blanks is taken for a phone number. *)
Example short_phone_sample :
  extract_phone "Paid 100         to shop" = Some "00".
Proof. by vm_compute. Qed.

(** ** Keywords that never decide *)

Lemma some_keyword_in_cons keyword keywords text :
  some_keyword_in (keyword :: keywords) text
  ↔ occurs_in keyword text ∨ some_keyword_in keywords text.
Proof.
  unfold some_keyword_in. split.
  - intros (k & [->|Hin]%elem_of_cons & Hocc); [by left|]. right. by exists k.
  - intros [Hocc | (k & Hin & Hocc)].
    + exists keyword. split; [by apply elem_of_cons; left|done].
    + exists k. split; [by apply elem_of_cons; right|done].
Qed.

Lemma cash_in_keywords_reduced text :
  some_keyword_in CASH_IN_KEYWORDS text
  ↔ some_keyword_in ["received"; "cash in"; "paid"] text.
Proof.
  unfold CASH_IN_KEYWORDS. rewrite !some_keyword_in_cons.
  assert (Hsub : occurs_in "received" "payment received")
    by (by apply contains_spec).
  split.
  - intros [H|[H|[H|[H|H]]]].
    + by left.
    + right. by left.
    + left. by eapply occurs_in_trans.
    + right. right. by left.
    + by destruct (some_keyword_in_nil _ H).
  - intros [H|[H|[H|H]]].
    + by left.
    + right. by left.
    + right. right. right. by left.
    + by destruct (some_keyword_in_nil _ H).
Qed.

(** X5. The keywords that decide the type: a transaction is CASH_IN exactly
    when its lower-cased body contains "received", "cash in" or "paid";
    it is CASH_OUT exactly when it contains none of these and contains
    "withdrew", "cash out" or "payment". The CASH_IN keyword "payment
    received" and the CASH_OUT keyword "paid" never decide. *)
Theorem type_keywords_that_decide (body_lower : string) :
  (classify_type body_lower = CASH_IN
   ↔ some_keyword_in ["received"; "cash in"; "paid"] body_lower)
  ∧ (classify_type body_lower = CASH_OUT
     ↔ ¬ some_keyword_in ["received"; "cash in"; "paid"] body_lower
       ∧ some_keyword_in ["withdrew"; "cash out"; "payment"] body_lower)
  ∧ (classify_type body_lower = OTHER
     ↔ ¬ some_keyword_in ["received"; "cash in"; "paid"] body_lower
       ∧ ¬ some_keyword_in ["withdrew"; "cash out"; "payment"] body_lower).
Proof.
  rewrite <-cash_in_keywords_reduced.
  assert (Hout : ¬ some_keyword_in CASH_IN_KEYWORDS body_lower →
            (some_keyword_in CASH_OUT_KEYWORDS body_lower
             ↔ some_keyword_in ["withdrew"; "cash out"; "payment"] body_lower)).
  { intros Hin. unfold CASH_OUT_KEYWORDS. rewrite !some_keyword_in_cons.
    assert (¬ occurs_in "paid" body_lower).
    { intros Hpaid. apply Hin, cash_in_keywords_reduced.
      rewrite !some_keyword_in_cons. auto. }
    tauto. }
  unfold classify_type.
  destruct (any_in CASH_IN_KEYWORDS body_lower) eqn:Hin.
  - apply any_in_spec in Hin. split_and!; split; try done; tauto.
  - apply any_in_false in Hin. specialize (Hout Hin).
    destruct (any_in CASH_OUT_KEYWORDS body_lower) eqn:Hco.
    + apply any_in_spec in Hco. split_and!; split; try done; tauto.
    + apply any_in_false in Hco. split_and!; split; try done; tauto.
Qed.

Lemma categorize_in_skip before rest description :
  (∀ entry, entry ∈ before → ¬ some_keyword_in entry.2 description) →
  categorize_in (before ++ rest) description = categorize_in rest description.
Proof.
  induction before as [|[category keywords] before IH]; intros Hnone; [done|].
  simpl. rewrite (proj2 (any_in_false keywords description)).
  - apply IH. intros entry Hin. apply Hnone. by apply elem_of_cons; right.
  - apply (Hnone (category, keywords)). by apply elem_of_cons; left.
Qed.

Lemma categorize_in_hit before rest description :
  ¬ (∀ entry, entry ∈ before → ¬ some_keyword_in entry.2 description) →
  categorize_in (before ++ rest) description ∈ before.*1.
Proof.
  induction before as [|[category keywords] before IH]; intros Hsome.
  - destruct Hsome. intros entry Hin. by apply elem_of_nil in Hin.
  - simpl. destruct (any_in keywords description) eqn:Hany.
    + by apply elem_of_cons; left.
    + apply elem_of_cons; right. apply IH. intros Hnone. apply Hsome.
      intros entry [->|Hin]%elem_of_cons; [by apply any_in_false|by apply Hnone].
Qed.

Lemma no_keyword_decidable (entries : list (string * list string)) description :
  Decision (∀ entry, entry ∈ entries → ¬ some_keyword_in entry.2 description).
Proof.
  induction entries as [|entry entries IH].
  - left. intros entry Hin. by apply elem_of_nil in Hin.
  - destruct (any_in entry.2 description) eqn:Hany.
    + right. intros Hnone. apply any_in_spec in Hany.
      apply (Hnone entry); [by apply elem_of_cons; left|done].
    + destruct IH as [IH|IH].
      * left. intros e [->|Hin]%elem_of_cons; [by apply any_in_false|by apply IH].
      * right. intros Hnone. apply IH. intros e Hin. apply Hnone.
        by apply elem_of_cons; right.
Qed.

(** X6. A description is labelled "loan" exactly when no keyword of the
    thirteen categories declared before it occurs and one of "loan",
    "borrow" or "debt" does. The loan keyword "credit" never decides: it is
    an airtime keyword too, and airtime is declared first. *)
Theorem loan_keyword_credit_is_dead (description : string) :
  categorize_transaction description = "loan"
  ↔ (∀ entry, entry ∈ take 13 CATEGORIES → ¬ some_keyword_in entry.2 description)
    ∧ some_keyword_in ["loan"; "borrow"; "debt"] description.
Proof.
  unfold categorize_transaction.
  rewrite <-(take_drop 13 CATEGORIES) at 1.
  destruct (no_keyword_decidable (take 13 CATEGORIES) description) as [Hnone|Hsome].
  - rewrite (categorize_in_skip _ _ _ Hnone).
    assert (Hcredit : ¬ occurs_in "credit" description).
    { intros Hocc.
      apply (Hnone ("airtime", ["airtime"; "data"; "bundle"; "credit"; "recharge"])).
      - unfold CATEGORIES. cbn [take]. rewrite !elem_of_cons. tauto.
      - cbn [snd]. rewrite !some_keyword_in_cons. tauto. }
    cbn [drop CATEGORIES categorize_in].
    destruct (any_in ["loan"; "borrow"; "credit"; "debt"] description) eqn:Hloan.
    + apply any_in_spec in Hloan. rewrite !some_keyword_in_cons in *.
      split; [|done]. intros _. split; [done|]. tauto.
    + apply any_in_false in Hloan. rewrite !some_keyword_in_cons in *.
      cbn [any_in existsb]. split; [done|]. intros [_ H]. tauto.
  - split; [|by intros [? _]]. intros Hloan.
    pose proof (categorize_in_hit _ (drop 13 CATEGORIES) _ Hsome) as Hin.
    rewrite Hloan in Hin. unfold CATEGORIES in Hin. cbn [take fmap list_fmap fst] in Hin.
    rewrite !elem_of_cons, elem_of_nil in Hin.
    repeat (destruct Hin as [Hin|Hin]; [discriminate Hin|]). done.
Qed.

Example credit_is_airtime :
  categorize_transaction "loan credit repayment" = "airtime"
  ∧ categorize_transaction "your loan is due" = "loan".
Proof. by vm_compute. Qed.

(** ** Runs over a batch *)

(** The sink the extractor starts from does not influence what it adds. *)
Lemma extract_sink_independent P msg sink0 :
  extract_transaction_details P msg sink0 =
    ((extract_transaction_details P msg []).1,
     sink0 ++ (extract_transaction_details P msg []).2).
Proof.
  unfold extract_transaction_details, save_to_dead_letter.
  destruct (extract_try P msg); simpl; [by rewrite app_nil_r|done].
Qed.

Lemma process_message_contribution P st msg :
  process_message P st msg =
    {| transactions := transactions st ++ option_list (extracted_transaction P msg);
       sink := sink st ++ dead_letters_of P msg |}.
Proof.
  unfold process_message, extracted_transaction, dead_letters_of.
  destruct (is_momo_sms msg).
  - rewrite extract_sink_independent.
    destruct (extract_transaction_details P msg []) as [[t|] new]; simpl; [done|].
    by rewrite app_nil_r.
  - destruct st. simpl. by rewrite !app_nil_r.
Qed.

Lemma process_contributions P msgs st :
  transactions (process P msgs st)
  = transactions st ++ omap (extracted_transaction P) msgs
  ∧ sink (process P msgs st) = sink st ++ (msgs ≫= dead_letters_of P).
Proof.
  revert st. induction msgs as [|msg msgs IH]; intros st.
  - simpl. by rewrite !app_nil_r.
  - rewrite process_cons. destruct (IH (process_message P st msg)) as [-> ->].
    rewrite process_message_contribution. cbn [transactions sink omap list_omap].
    rewrite bind_cons, <-!app_assoc.
    by destruct (extracted_transaction P msg).
Qed.

(** X7. A run only appends to the transactions it collects, and in batch
    order: the transactions after the run are those before it followed by
    the transactions of the messages that yield one, in the order of the
    batch. Nothing already collected is changed or dropped; a second run
    over the same batch therefore collects every transaction a second
    time. *)
Theorem process_appends_in_order (P : platform) (msgs : list message) (st : run_state) :
  transactions (process P msgs st)
  = transactions st ++ omap (extracted_transaction P) msgs
  ∧ transactions (process P msgs (process P msgs st))
    = transactions st ++ omap (extracted_transaction P) msgs
        ++ omap (extracted_transaction P) msgs.
Proof.
  destruct (process_contributions P msgs st) as [Htx _]. split; [done|].
  destruct (process_contributions P msgs (process P msgs st)) as [-> _].
  by rewrite Htx, <-app_assoc.
Qed.

Lemma extracted_transaction_Some P msg t :
  extracted_transaction P msg = Some t →
  is_momo_sms msg = true ∧ msg !! "@body" = Some (tx_description t).
Proof.
  unfold extracted_transaction. destruct (is_momo_sms msg) eqn:Hmomo; [|done].
  apply is_momo_sms_spec in Hmomo as (body & Hbody & Hind).
  unfold extract_transaction_details. rewrite (extract_try_body _ _ _ Hbody).
  destruct (resolve_date P _) as [d|e]; simpl; [|done].
  intros [= <-]. by split.
Qed.

(** An exception leaves the timestamp block only when the text parsed and
    the conversion raised something the handler does not take. *)
Lemma resolve_date_Raise P date_str e :
  resolve_date P date_str = Raise e →
  handles_value_or_type e = false
  ∧ ∃ n, PyStr.int date_str = Some n ∧ fromtimestamp_millis P n = Raise e.
Proof.
  unfold resolve_date, int_of_text. destruct (String.eqb date_str ""); [done|].
  destruct (PyStr.int date_str) as [n|]; simpl; [|done].
  destruct (fromtimestamp_millis P n) as [d|e'] eqn:Hconv; simpl; [done|].
  destruct (handles_value_or_type e') eqn:Hh; [done|].
  intros [= <-]. split; [done|]. by exists n.
Qed.

Lemma dead_letters_of_elem P msg r :
  r ∈ dead_letters_of P msg →
  dl_message r = msg
  ∧ is_momo_sms msg = true
  ∧ is_Some (msg !! "@body")
  ∧ ∃ n e, PyStr.int (default "" (msg !! "@date")) = Some n
           ∧ fromtimestamp_millis P n = Raise e
           ∧ handles_value_or_type e = false
           ∧ dl_error r = exn_str e.
Proof.
  unfold dead_letters_of. destruct (is_momo_sms msg) eqn:Hmomo.
  2:{ intros Hin. by apply elem_of_nil in Hin. }
  apply is_momo_sms_spec in Hmomo as (body & Hbody & _).
  unfold extract_transaction_details. rewrite (extract_try_body _ _ _ Hbody).
  destruct (resolve_date P _) as [d|e] eqn:Hdate; simpl.
  { intros Hin. by apply elem_of_nil in Hin. }
  intros ->%list_elem_of_singleton. simpl.
  apply resolve_date_Raise in Hdate as (Hh & n & Hint & Hconv).
  split_and!; [done|done|by rewrite Hbody|]. by exists n, e.
Qed.

(** X9. A run sends a message to the dead-letter sink for one reason only:
    the message is a MoMo notification (so it has a body), its date
    attribute parses as an integer, and the conversion of that integer
    raises an exception other than [ValueError] and [TypeError]; the record
    carries the message and the text of that exception. A run never
    dead-letters a message for a missing body. *)
Theorem process_dead_letter_cause (P : platform) (msgs : list message) (st : run_state)
    (r : dead_letter) :
  r ∈ sink (process P msgs st) →
  r ∈ sink st
  ∨ (dl_message r ∈ msgs
     ∧ is_momo_sms (dl_message r) = true
     ∧ is_Some (dl_message r !! "@body")
     ∧ ∃ n e, PyStr.int (default "" (dl_message r !! "@date")) = Some n
              ∧ fromtimestamp_millis P n = Raise e
              ∧ handles_value_or_type e = false
              ∧ dl_error r = exn_str e).
Proof.
  destruct (process_contributions P msgs st) as [_ ->].
  intros [Hold | (msg & Hr & Hmsg)%list_elem_of_bind]%elem_of_app; [by left|].
  right. apply dead_letters_of_elem in Hr as (Hm & Hrest). rewrite Hm. by split.
Qed.

Lemma process_dead_letter_cause_witness :
  let r := {| dl_message := far_future_message;
              dl_error := "timestamp out of range for platform time_t";
              dl_timestamp := now posix64 |} in
  r ∈ sink (process posix64 [greeting_message; far_future_message] empty_run)
  ∧ (r ∈ sink empty_run
     ∨ (dl_message r ∈ [greeting_message; far_future_message]
        ∧ is_momo_sms (dl_message r) = true
        ∧ is_Some (dl_message r !! "@body")
        ∧ ∃ n e, PyStr.int (default "" (dl_message r !! "@date")) = Some n
                 ∧ fromtimestamp_millis posix64 n = Raise e
                 ∧ handles_value_or_type e = false
                 ∧ dl_error r = exn_str e)).
Proof.
  intros r.
  assert (H : r ∈ sink (process posix64 [greeting_message; far_future_message] empty_run)).
  { assert (Hrun : sink (process posix64 [greeting_message; far_future_message] empty_run)
                   = [r]) by reflexivity.
    rewrite Hrun. by apply list_elem_of_singleton. }
  split; [exact H|].
  exact (process_dead_letter_cause posix64 _ empty_run r H).
Defined.

(** X10. A run writes no dead letter when no MoMo message of the batch has
    a date whose conversion raises an exception other than [ValueError] and
    [TypeError]: a date that is absent, that does not parse, or whose year
    is out of range falls back to the wall clock. Every MoMo message of the
    batch then yields a transaction. *)
Theorem process_without_dead_letters (P : platform) (msgs : list message)
    (st : run_state) :
  (∀ msg n e, msg ∈ msgs → is_momo_sms msg = true →
     PyStr.int (default "" (msg !! "@date")) = Some n →
     fromtimestamp_millis P n = Raise e → handles_value_or_type e = true) →
  sink (process P msgs st) = sink st
  ∧ length (transactions (process P msgs st))
    = (length (transactions st)
       + length (filter (λ msg, is_momo_sms msg = true) msgs))%nat
  ∧ ∀ msg, msg ∈ msgs → is_momo_sms msg = true →
           ∃ t, t ∈ transactions (process P msgs st)
                ∧ msg !! "@body" = Some (tx_description t).
Proof.
  intros Hdates.
  assert (Hnone : ∀ msg, msg ∈ msgs → dead_letters_of P msg = []).
  { intros msg Hin. destruct (dead_letters_of P msg) as [|r l] eqn:Hdl; [done|].
    assert (Hr : r ∈ dead_letters_of P msg) by (rewrite Hdl; by apply elem_of_cons; left).
    apply dead_letters_of_elem in Hr as (_ & Hmomo & _ & n & e & Hint & Hconv & Hh & _).
    rewrite (Hdates _ _ _ Hin Hmomo Hint Hconv) in Hh. done. }
  assert (Hext : ∀ msg, msg ∈ msgs → is_momo_sms msg = true →
                        ∃ t, extracted_transaction P msg = Some t).
  { intros msg Hin Hmomo. unfold extracted_transaction. rewrite Hmomo.
    pose proof (Hnone msg Hin) as Hdl. unfold dead_letters_of in Hdl. rewrite Hmomo in Hdl.
    destruct (extract_cases P msg []) as [(t & Ht & _) | (error & Herr)].
    - exists t. by rewrite Ht.
    - rewrite Herr in Hdl. done. }
  destruct (process_contributions P msgs st) as [Htx Hsink]. split_and!.
  - rewrite Hsink.
    assert (Hbind : msgs ≫= dead_letters_of P = []).
    { clear -Hnone. induction msgs as [|m l IH]; [done|].
      rewrite bind_cons, (Hnone m) by (by apply elem_of_cons; left).
      apply IH. intros msg Hin. apply Hnone. by apply elem_of_cons; right. }
    by rewrite Hbind, app_nil_r.
  - rewrite Htx, length_app. f_equal.
    clear -Hext. induction msgs as [|m l IH]; [done|].
    assert (IH' : length (omap (extracted_transaction P) l)
                  = length (filter (λ msg, is_momo_sms msg = true) l)).
    { apply IH. intros msg Hin. apply Hext. by apply elem_of_cons; right. }
    rewrite filter_cons. cbn [omap list_omap].
    destruct (decide (is_momo_sms m = true)) as [Hmomo|Hskip].
    + destruct (Hext m) as [t ->]; [by apply elem_of_cons; left|done|].
      simpl. by rewrite IH'.
    + unfold extracted_transaction at 1. by destruct (is_momo_sms m).
  - intros msg Hin Hmomo. rewrite Htx.
    destruct (Hext msg Hin Hmomo) as [t Ht]. exists t. split.
    + apply elem_of_app; right. apply list_elem_of_omap. by exists msg.
    + by apply extracted_transaction_Some in Ht as [_ ?].
Qed.

(** The batch of the witness: a date in range, a year out of range, no
    date, and a message that is no MoMo notification. *)
Lemma process_without_dead_letters_witness :
  (∀ msg n e, msg ∈ [c2_message; far_year_message; paid_message; greeting_message] →
     is_momo_sms msg = true →
     PyStr.int (default "" (msg !! "@date")) = Some n →
     fromtimestamp_millis posix64 n = Raise e → handles_value_or_type e = true)
  ∧ resolve_date posix64 (default "" (far_year_message !! "@date")) = Ok (now posix64)
  ∧ sink (process posix64
            [c2_message; far_year_message; paid_message; greeting_message] empty_run) = []
  ∧ length (transactions (process posix64
              [c2_message; far_year_message; paid_message; greeting_message] empty_run))
    = 2%nat.
Proof.
  assert (Hdates : ∀ msg n e,
            msg ∈ [c2_message; far_year_message; paid_message; greeting_message] →
            is_momo_sms msg = true →
            PyStr.int (default "" (msg !! "@date")) = Some n →
            fromtimestamp_millis posix64 n = Raise e → handles_value_or_type e = true).
  { intros msg n e Hin Hmomo Hint Hconv. rewrite !elem_of_cons, elem_of_nil in Hin.
    destruct Hin as [->|[->|[->|[->|[]]]]].
    - vm_compute in Hint. injection Hint as <-. vm_compute in Hconv. discriminate Hconv.
    - vm_compute in Hint. injection Hint as <-. vm_compute in Hconv.
      injection Hconv as <-. reflexivity.
    - vm_compute in Hint. discriminate Hint.
    - vm_compute in Hmomo. discriminate Hmomo. }
  split; [exact Hdates|]. split; [reflexivity|].
  destruct (process_without_dead_letters posix64
              [c2_message; far_year_message; paid_message; greeting_message] empty_run
              Hdates) as (Hsink & Hlen & _).
  split; [exact Hsink|]. rewrite Hlen. reflexivity.
Defined.

(** ** The dead-letter directory *)







(** ** Entries of the snapshot *)

Lemma value_counts_lookup `{Countable K} (l : list K) (k : K) :
  value_counts l !! k
  = (let n := length (filter (λ x, x = k) l) in
     if decide (n = O) then None else Some n).
Proof.
  induction l as [|x l IH]; [apply lookup_empty|].
  unfold value_counts in *. cbn [foldr].
  set (m := foldr (λ k m, <[k := S (default O (m !! k))]> m) ∅ l) in *.
  rewrite filter_cons. destruct (decide (x = k)) as [->|Hne].
  - rewrite lookup_insert_eq, IH. cbn zeta. cbn [length].
    destruct (decide (length (filter (λ x, x = k) l) = O)) as [->|Hn]; [done|].
    by destruct (decide (S (length (filter (λ x, x = k) l)) = O)).
  - by rewrite lookup_insert_ne.
Qed.

Lemma filter_key_nil `{EqDecision K} {V} (rows : list (K * V)) (k : K) :
  k ∉ rows.*1 → filter (λ r, r.1 = k) rows = [].
Proof.
  induction rows as [|[x a] rows IH]; [done|]. cbn [fmap list_fmap fst].
  intros Hnin. rewrite filter_cons. cbn [fst].
  destruct (decide (x = k)) as [->|Hne].
  - destruct Hnin. by apply elem_of_cons; left.
  - apply IH. intros Hin. apply Hnin. by apply elem_of_cons; right.
Qed.

Lemma groupby_sum_lookup `{Countable K} (rows : list (K * Qc)) (k : K) :
  groupby_sum rows !! k
  = if decide (k ∈ rows.*1)
    then Some (series_sum (filter (λ r, r.1 = k) rows).*2) else None.
Proof.
  induction rows as [|[x a] rows IH].
  { destruct (decide (k ∈ ([] : list (K * Qc)).*1)) as [Hin|]; [|apply lookup_empty].
    by apply elem_of_nil in Hin. }
  unfold groupby_sum in *. cbn [foldr fst snd].
  set (m := foldr (λ kv m, <[kv.1 := kv.2 + default 0 (m !! kv.1)]> m) ∅ rows) in *.
  rewrite filter_cons. cbn [fst fmap list_fmap]. destruct (decide (x = k)) as [->|Hne].
  - rewrite lookup_insert_eq, IH.
    destruct (decide (k ∈ k :: rows.*1)) as [_|Hn];
      [|destruct Hn; by apply elem_of_cons; left].
    cbn [fmap list_fmap snd series_sum foldr].
    destruct (decide (k ∈ rows.*1)) as [Hin|Hnin]; [done|].
    by rewrite (filter_key_nil _ _ Hnin).
  - rewrite lookup_insert_ne by done. rewrite IH.
    destruct (decide (k ∈ rows.*1)) as [Hin|Hnin];
      destruct (decide (k ∈ x :: rows.*1)) as [Hin'|Hnin']; try done.
    + destruct Hnin'. by apply elem_of_cons; right.
    + apply elem_of_cons in Hin' as [->|Hin']; done.
Qed.

Lemma filter_fmap_length {A B} `{EqDecision B} (f : A → B) (l : list A) (b : B) :
  length (filter (λ y, y = b) (f <$> l)) = length (filter (λ x, f x = b) l).
Proof.
  induction l as [|x l IH]; [done|]. cbn [fmap list_fmap]. rewrite !filter_cons.
  destruct (decide (f x = b)); simpl; by rewrite IH.
Qed.

Section SnapshotEntries.

Variables (a b c : stat).
Variables (type_counts : gmap transaction_type nat) (category_counts : gmap string nat)
          (category_amounts : gmap string Qc).

Lemma snapshot_type_entry t :
  with_category_amounts category_amounts
    (with_category_counts category_counts
       (with_type_counts type_counts (fixed_entries a b c))) !! count_type_key t
  = (λ n, IntStat (Z.of_nat n)) <$> type_counts !! t.
Proof.
  unfold with_category_amounts, with_category_counts.
  rewrite !update_from_lookup_other.
  - unfold with_type_counts. rewrite (update_from_lookup_key _ _ _).
    destruct (type_counts !! t); [done|]. apply type_keys_fresh.
  - intros k. apply prefixed_key_ne, count_type_key_prefix.
  - intros k. apply prefixed_key_ne, count_type_key_prefix.
Qed.

Lemma snapshot_category_count_entry category :
  with_category_amounts category_amounts
    (with_category_counts category_counts
       (with_type_counts type_counts (fixed_entries a b c)))
    !! count_category_key category
  = (λ n, IntStat (Z.of_nat n)) <$> category_counts !! category.
Proof.
  unfold with_category_amounts. rewrite update_from_lookup_other.
  - unfold with_category_counts. rewrite (update_from_lookup_key _ _ _).
    destruct (category_counts !! category); [done|]. apply category_count_keys_fresh.
  - intros k. apply prefixed_key_ne. reflexivity.
Qed.

Lemma snapshot_category_amount_entry category :
  with_category_amounts category_amounts
    (with_category_counts category_counts
       (with_type_counts type_counts (fixed_entries a b c)))
    !! amount_category_key category
  = FloatStat <$> category_amounts !! category.
Proof.
  unfold with_category_amounts. rewrite (update_from_lookup_key _ _ _).
  destruct (category_amounts !! category); [done|]. apply category_amount_keys_fresh.
Qed.

End SnapshotEntries.

(** X11. The entries of the snapshot of a non-empty batch: under
    [count_<type>] the number of transactions of that type, under
    [count_category_<c>] the number of transactions of category [c], under
    [amount_category_<c>] the sum of their amounts; a type or a category
    without transaction has no key at all (not a zero). *)
Theorem stats_entries (txs : list transaction) :
  txs ≠ [] →
  ∃ stats,
    calculate_stats txs = Some stats
    ∧ (∀ t, stats !! count_type_key t
            = (let n := length (filter (λ x, tx_type x = t) txs) in
               if decide (n = O) then None else Some (IntStat (Z.of_nat n))))
    ∧ (∀ category, stats !! count_category_key category
            = (let n := length (filter (λ x, tx_category x = category) txs) in
               if decide (n = O) then None else Some (IntStat (Z.of_nat n))))
    ∧ (∀ category, stats !! amount_category_key category
            = if decide (category ∈ tx_category <$> txs)
              then Some (FloatStat
                           (series_sum
                              (tx_amount <$> filter (λ x, tx_category x = category) txs)))
              else None).
Proof.
  destruct txs as [|t0 txs0]; [done|]. intros _. set (txs := t0 :: txs0).
  eexists. split; [apply calculate_stats_cons|]. fold txs. split_and!.
  - intros t. rewrite snapshot_type_entry, value_counts_lookup, filter_fmap_length.
    cbn zeta. by destruct (decide _).
  - intros category.
    rewrite snapshot_category_count_entry, value_counts_lookup, filter_fmap_length.
    cbn zeta. by destruct (decide _).
  - intros category. rewrite snapshot_category_amount_entry, groupby_sum_lookup.
    rewrite <-list_fmap_compose.
    assert (Hrows : (filter (λ r : string * Qc, r.1 = category)
                       ((λ t, (tx_category t, tx_amount t)) <$> txs)).*2
                    = tx_amount <$> filter (λ x, tx_category x = category) txs).
    { clear. induction txs as [|x l IH]; [done|]. cbn [fmap list_fmap].
      rewrite !filter_cons. cbn [fst].
      destruct (decide (tx_category x = category)); cbn [fmap list_fmap snd];
        by rewrite IH. }
    rewrite Hrows.
    destruct (decide (category ∈ (fst ∘ λ t, (tx_category t, tx_amount t)) <$> txs));
      destruct (decide (category ∈ tx_category <$> txs)); done.
Qed.

Lemma stats_entries_witness :
  sample_batch ≠ []
  ∧ ∃ stats,
      calculate_stats sample_batch = Some stats
      ∧ stats !! count_type_key OTHER = None
      ∧ stats !! count_category_key "food" = Some (IntStat 2)
      ∧ stats !! amount_category_key "bills" = None.
Proof.
  assert (Hne : sample_batch ≠ []) by discriminate.
  split; [exact Hne|].
  destruct (stats_entries sample_batch Hne) as (stats & Hstats & Htype & Hcount & Hamount).
  exists stats. split; [exact Hstats|]. split_and!.
  - rewrite Htype. reflexivity.
  - rewrite Hcount. reflexivity.
  - rewrite Hamount. reflexivity.
Defined.

Lemma type_partition_length (txs : list transaction) :
  (length (filter (λ x, tx_type x = CASH_IN) txs)
   + length (filter (λ x, tx_type x = CASH_OUT) txs)
   + length (filter (λ x, tx_type x = OTHER) txs))%nat = length txs.
Proof.
  induction txs as [|x l IH]; [done|]. rewrite !filter_cons.
  destruct (tx_type x); simpl; lia.
Qed.

(** X12. The per-type counts of a snapshot reconcile with the batch: the
    counts under [count_cash_in], [count_cash_out] and [count_other], an
    absent key counting as zero, add up to the number of transactions. *)
Theorem type_counts_reconcile (txs : list transaction) :
  ∃ stats,
    calculate_stats txs = Some stats
    ∧ (type_count stats CASH_IN + type_count stats CASH_OUT + type_count stats OTHER)%Z
      = Z.of_nat (length txs).
Proof.
  destruct txs as [|t0 txs0]; [by exists ∅|]. set (txs := t0 :: txs0).
  eexists. split; [apply calculate_stats_cons|]. fold txs.
  assert (Hcount : ∀ t,
            type_count
              (with_category_amounts
                 (groupby_sum ((λ t, (tx_category t, tx_amount t)) <$> txs))
                 (with_category_counts (value_counts (tx_category <$> txs))
                    (with_type_counts (value_counts (tx_type <$> txs))
                       (fixed_entries
                          (IntStat (Z.of_nat (length txs)))
                          (FloatStat (series_sum (tx_amount <$> txs)))
                          (FloatStat (series_sum (tx_amount <$> txs)
                                      / Qc_of_Z (Z.of_nat (length (tx_amount <$> txs)))))))))
              t
            = Z.of_nat (length (filter (λ x, tx_type x = t) txs))).
  { intros t. unfold type_count.
    rewrite snapshot_type_entry, value_counts_lookup, filter_fmap_length. cbn zeta.
    destruct (decide (length (filter (λ x, tx_type x = t) txs) = O)) as [->|_]; done. }
  rewrite !Hcount. pose proof (type_partition_length txs). lia.
Qed.

(** X13. The average of a snapshot is consistent with its totals: for a
    non-empty batch the value under [avg_transaction_amount] times the value
    under [total_transactions] is the value under [total_amount]. *)
Theorem average_reconciles (txs : list transaction) :
  txs ≠ [] →
  ∃ stats avg total_amount total_transactions,
    calculate_stats txs = Some stats
    ∧ stats !! "avg_transaction_amount" = Some (FloatStat avg)
    ∧ stats !! "total_amount" = Some (FloatStat total_amount)
    ∧ stats !! "total_transactions" = Some (IntStat total_transactions)
    ∧ avg * Qc_of_Z total_transactions = total_amount.
Proof.
  destruct txs as [|t0 txs0]; [done|]. intros _. set (txs := t0 :: txs0).
  eexists _, _, _, _. split; [apply calculate_stats_cons|]. fold txs. split_and!.
  - rewrite fixed_key_kept by reflexivity. unfold fixed_entries.
    by rewrite lookup_insert_eq.
  - rewrite fixed_key_kept by reflexivity. unfold fixed_entries.
    by rewrite lookup_insert_ne, lookup_insert_eq by done.
  - rewrite fixed_key_kept by reflexivity. unfold fixed_entries.
    by rewrite !lookup_insert_ne, lookup_insert_eq by done.
  - rewrite length_fmap.
    assert (Hn : Qc_of_Z (Z.of_nat (length txs)) ≠ 0).
    { rewrite <-Z2Qc_inj_0. intros Heq%Z2Qc_inj. simpl in Heq. lia. }
    field. exact Hn.
Qed.

Lemma average_reconciles_witness :
  sample_batch ≠ []
  ∧ ∃ stats avg total_amount total_transactions,
      calculate_stats sample_batch = Some stats
      ∧ stats !! "avg_transaction_amount" = Some (FloatStat avg)
      ∧ stats !! "total_amount" = Some (FloatStat total_amount)
      ∧ stats !! "total_transactions" = Some (IntStat total_transactions)
      ∧ avg * Qc_of_Z total_transactions = total_amount.
Proof.
  assert (Hne : sample_batch ≠ []) by discriminate.
  split; [exact Hne | exact (average_reconciles sample_batch Hne)].
Defined.

(** ** The order of the batch does not matter to the snapshot *)

Lemma series_sum_perm (l1 l2 : list Qc) : l1 ≡ₚ l2 → series_sum l1 = series_sum l2.
Proof.
  unfold series_sum. induction 1 as [|x l1 l2 _ IH|x y l|l1 l2 l3 _ IH1 _ IH2]; simpl.
  - done.
  - by rewrite IH.
  - ring.
  - by rewrite IH1.
Qed.

Lemma value_counts_perm `{Countable K} (l1 l2 : list K) :
  l1 ≡ₚ l2 → value_counts l1 = value_counts l2.
Proof.
  intros Hperm. apply map_eq. intros k. rewrite !value_counts_lookup. cbn zeta.
  assert (Hlen : length (filter (λ x, x = k) l1) = length (filter (λ x, x = k) l2))
    by (by apply Permutation_length, filter_Permutation).
  by rewrite Hlen.
Qed.

Lemma groupby_sum_perm `{Countable K} (rows1 rows2 : list (K * Qc)) :
  rows1 ≡ₚ rows2 → groupby_sum rows1 = groupby_sum rows2.
Proof.
  intros Hperm. apply map_eq. intros k. rewrite !groupby_sum_lookup.
  assert (Hsum : series_sum (filter (λ r, r.1 = k) rows1).*2
                 = series_sum (filter (λ r, r.1 = k) rows2).*2).
  { apply series_sum_perm, fmap_Permutation. by apply filter_Permutation. }
  rewrite Hsum.
  pose proof (fmap_Permutation fst _ _ Hperm) as Hkeys.
  destruct (decide (k ∈ rows1.*1)) as [Hin|Hnin];
    destruct (decide (k ∈ rows2.*1)) as [Hin'|Hnin']; try done.
  - destruct Hnin'. by rewrite <-Hkeys.
  - destruct Hnin. by rewrite Hkeys.
Qed.

(** X14. The snapshot does not depend on the order of the batch: two
    batches with the same transactions in different orders give the same
    snapshot (amounts being exact). *)
Theorem calculate_stats_order_independent (txs1 txs2 : list transaction) :
  txs1 ≡ₚ txs2 → calculate_stats txs1 = calculate_stats txs2.
Proof.
  intros Hperm. destruct txs1 as [|t1 l1].
  { apply Permutation_nil_l in Hperm as ->. done. }
  destruct txs2 as [|t2 l2].
  { by apply Permutation_nil_r in Hperm. }
  rewrite !calculate_stats_cons. cbn zeta.
  rewrite (value_counts_perm _ _ (fmap_Permutation tx_type _ _ Hperm)).
  rewrite (value_counts_perm _ _ (fmap_Permutation tx_category _ _ Hperm)).
  rewrite (groupby_sum_perm _ _
             (fmap_Permutation (λ t, (tx_category t, tx_amount t)) _ _ Hperm)).
  rewrite (series_sum_perm _ _ (fmap_Permutation tx_amount _ _ Hperm)).
  rewrite !length_fmap, (Permutation_length Hperm). done.
Qed.

Lemma calculate_stats_order_independent_witness :
  sample_batch ≡ₚ reverse sample_batch
  ∧ calculate_stats sample_batch = calculate_stats (reverse sample_batch).
Proof.
  assert (Hperm : sample_batch ≡ₚ reverse sample_batch)
    by (symmetry; apply reverse_Permutation).
  split; [exact Hperm | exact (calculate_stats_order_independent _ _ Hperm)].
Defined.

(** ** Keys of the snapshot *)

Lemma update_from_is_Some `{Countable K} {V} (key : K → string) (val : V → stat)
    (d : gmap K V) (stats : gmap string stat) (j : string) :
  is_Some (update_from key val d stats !! j)
  ↔ (∃ k, is_Some (d !! k) ∧ key k = j) ∨ is_Some (stats !! j).
Proof.
  unfold update_from.
  apply (map_fold_weak_ind (λ r m,
           is_Some (r !! j) ↔ (∃ k, is_Some (m !! k) ∧ key k = j) ∨ is_Some (stats !! j))).
  - split; [by right|]. intros [(k & Hk & _)|Hj]; [|done].
    rewrite lookup_empty in Hk. by destruct Hk.
  - intros i x m r Hfresh IH. destruct (decide (key i = j)) as [<-|Hne].
    + rewrite lookup_insert_eq. split; [|by eexists]. intros _. left. exists i.
      by rewrite lookup_insert_eq.
    + rewrite lookup_insert_ne by done. rewrite IH. split.
      * intros [(k & Hk & Hkey)|Hj]; [|by right]. left. exists k. split; [|done].
        rewrite lookup_insert_ne; [done|]. by intros ->.
      * intros [(k & Hk & Hkey)|Hj]; [|by right]. left. exists k. split; [|done].
        rewrite lookup_insert_ne in Hk; [done|]. by intros ->.
Qed.

Lemma value_counts_is_Some `{Countable K} (l : list K) (k : K) :
  is_Some (value_counts l !! k) ↔ k ∈ l.
Proof.
  rewrite value_counts_lookup. cbn zeta.
  destruct (decide (length (filter (λ x, x = k) l) = O)) as [Hz|Hnz].
  - split; [by intros []|]. intros Hin.
    assert (Hk : k ∈ filter (λ x, x = k) l) by (by apply list_elem_of_filter).
    apply nil_length_inv in Hz. rewrite Hz in Hk. by apply elem_of_nil in Hk.
  - split; [|by eexists]. intros _.
    destruct (filter (λ x, x = k) l) as [|x f] eqn:Hf; [done|].
    assert (Hx : x ∈ filter (λ x, x = k) l) by (rewrite Hf; by apply elem_of_cons; left).
    by apply list_elem_of_filter in Hx as [-> ?].
Qed.

Lemma groupby_sum_is_Some `{Countable K} (rows : list (K * Qc)) (k : K) :
  is_Some (groupby_sum rows !! k) ↔ k ∈ rows.*1.
Proof.
  rewrite groupby_sum_lookup. destruct (decide (k ∈ rows.*1)); [|by split; [intros []|]].
  split; [done|by eexists].
Qed.

(** X15. The keys of the snapshot of a non-empty batch are the three fixed
    keys, one [count_<type>] key for every type that occurs in the batch,
    and one [count_category_<c>] and one [amount_category_<c>] key for every
    category that occurs in it; there is no other key. *)
Theorem snapshot_keys (txs : list transaction) :
  txs ≠ [] →
  ∃ stats,
    calculate_stats txs = Some stats
    ∧ ∀ key,
        is_Some (stats !! key)
        ↔ key ∈ ["total_transactions"; "total_amount"; "avg_transaction_amount"]
          ∨ ∃ t, t ∈ txs
                 ∧ (key = count_type_key (tx_type t)
                    ∨ key = count_category_key (tx_category t)
                    ∨ key = amount_category_key (tx_category t)).
Proof.
  destruct txs as [|t0 txs0]; [done|]. intros _. set (txs := t0 :: txs0).
  eexists. split; [apply calculate_stats_cons|]. fold txs. intros key.
  unfold with_category_amounts, with_category_counts, with_type_counts.
  rewrite !update_from_is_Some.
  setoid_rewrite groupby_sum_is_Some. setoid_rewrite value_counts_is_Some.
  setoid_rewrite list_elem_of_fmap.
  assert (Hfixed : is_Some (fixed_entries (IntStat (Z.of_nat (length txs)))
                     (FloatStat (series_sum (tx_amount <$> txs)))
                     (FloatStat (series_sum (tx_amount <$> txs)
                                 / Qc_of_Z (Z.of_nat (length (tx_amount <$> txs))))) !! key)
                   ↔ key ∈ ["total_transactions"; "total_amount"; "avg_transaction_amount"]).
  { unfold fixed_entries. rewrite !elem_of_cons, elem_of_nil.
    destruct (decide (key = "avg_transaction_amount")) as [->|H1].
    { rewrite lookup_insert_eq. split; [tauto|by eexists]. }
    rewrite lookup_insert_ne by done.
    destruct (decide (key = "total_amount")) as [->|H2].
    { rewrite lookup_insert_eq. split; [tauto|by eexists]. }
    rewrite lookup_insert_ne by done.
    destruct (decide (key = "total_transactions")) as [->|H3].
    { rewrite lookup_insert_eq. split; [tauto|by eexists]. }
    rewrite lookup_insert_ne, lookup_empty by done.
    split; [by intros []|tauto]. }
  rewrite Hfixed. split.
  - intros [(k & (r & -> & (t & -> & Ht)%list_elem_of_fmap) & <-)
           |[(k & (t & -> & Ht) & <-)|[(k & (t & -> & Ht) & <-)|Hkey]]].
    + right. exists t. cbn [fst]. tauto.
    + right. exists t. tauto.
    + right. exists t. tauto.
    + by left.
  - intros [Hkey|(t & Ht & [->|[->| ->]])].
    + tauto.
    + right. right. left. exists (tx_type t). split; [|done]. by exists t.
    + right. left. exists (tx_category t). split; [|done]. by exists t.
    + left. exists (tx_category t). split; [|done].
      exists (tx_category t, tx_amount t). split; [done|].
      apply list_elem_of_fmap. by exists t.
Qed.

Lemma snapshot_keys_witness :
  sample_batch ≠ []
  ∧ ∃ stats,
      calculate_stats sample_batch = Some stats
      ∧ ¬ is_Some (stats !! "count_other")
      ∧ is_Some (stats !! "amount_category_transport").
Proof.
  assert (Hne : sample_batch ≠ []) by discriminate.
  split; [exact Hne|].
  destruct (snapshot_keys sample_batch Hne) as (stats & Hstats & Hkeys).
  exists stats. split; [exact Hstats|].
  split.
  - intros [Hfixed | (t & Ht & Hkey)]%Hkeys.
    + rewrite !elem_of_cons, elem_of_nil in Hfixed.
      by destruct Hfixed as [?|[?|[?|?]]].
    + unfold sample_batch in Ht. rewrite !elem_of_cons, elem_of_nil in Ht.
      destruct Ht as [->|[->|[->|[]]]];
        destruct Hkey as [Hkey|[Hkey|Hkey]]; vm_compute in Hkey; discriminate Hkey.
  - apply Hkeys. right.
    exists {| tx_date := Datetime 0; tx_description := "paid 7 francs taxi";
              tx_amount := Q2Qc 7; tx_type := CASH_IN; tx_category := "transport";
              tx_phone := None; tx_reference := None; tx_processed_date := Datetime 0 |}.
    split; [|by right; right].
    unfold sample_batch. apply elem_of_cons; right. by apply elem_of_cons; left.
Defined.

(** ** The transactions table *)

Local Open Scope Z_scope.

Lemma max_id_bounds ids seq :
  seq ≤ max_id ids seq ∧ Forall (λ i, i ≤ max_id ids seq) ids.
Proof.
  unfold max_id. induction ids as [|i ids [IH1 IH2]]; simpl.
  - split; [lia|constructor].
  - split; [lia|]. constructor; [lia|].
    eapply list.Forall_impl; [exact IH2|]. intros j Hj. simpl in Hj. lia.
Qed.

Lemma max_id_snoc ids seq :
  max_id (ids ++ [next_id ids seq]) (next_id ids seq) = next_id ids seq.
Proof.
  unfold next_id. destruct (max_id_bounds ids seq) as [_ Hids].
  set (m := max_id ids seq) in *. clearbody m. unfold max_id.
  rewrite foldr_app. simpl. rewrite Z.max_id.
  induction Hids as [|i ids Hi _ IH]; simpl; [done|]. rewrite IH. lia.
Qed.

Lemma insert_transactions_table db txs :
  tx_table (foldl insert_transaction db txs)
  = tx_table db
    ++ imap (λ i t, {| row_id := next_id (row_id <$> tx_table db) (tx_seq db) + Z.of_nat i;
                       row_tx := t |}) txs
  ∧ stats_table (foldl insert_transaction db txs) = stats_table db
  ∧ stats_seq (foldl insert_transaction db txs) = stats_seq db.
Proof.
  revert db. induction txs as [|t txs IH]; intros db.
  - simpl. by rewrite app_nil_r.
  - cbn [foldl]. destruct (IH (insert_transaction db t)) as (Htx & Hstats & Hseq).
    rewrite Htx, Hstats, Hseq. split; [|done].
    cbn [insert_transaction tx_table tx_seq imap]. rewrite <-app_assoc. f_equal.
    cbn [app]. f_equal; [f_equal; lia|].
    rewrite fmap_app. cbn [fmap list_fmap row_id].
    apply imap_ext. intros i x _. cbn [compose]. f_equal.
    unfold next_id at 1. rewrite max_id_snoc. lia.
Qed.

Lemma upserts_keep_transactions P db entries :
  tx_table (foldl (upsert_stat P) db entries) = tx_table db
  ∧ tx_seq (foldl (upsert_stat P) db entries) = tx_seq db.
Proof.
  revert db. induction entries as [|e entries IH]; intros db; [done|].
  cbn [foldl]. destruct (IH (upsert_stat P db e)) as [-> ->].
  unfold upsert_stat. by destruct (select_stat_id e.1 db).
Qed.

Lemma calculate_stats_is_Some txs : is_Some (calculate_stats txs).
Proof.
  destruct txs as [|t txs]; [by eexists|]. rewrite calculate_stats_cons. by eexists.
Qed.

Lemma save_to_db_tx_table P txs db :
  tx_table (save_to_db P txs db)
  = tx_table db
    ++ imap (λ i t, {| row_id := next_id (row_id <$> tx_table db) (tx_seq db) + Z.of_nat i;
                       row_tx := t |}) txs.
Proof.
  destruct txs as [|t txs]; [simpl; by rewrite app_nil_r|].
  unfold save_to_db. destruct (calculate_stats_is_Some (t :: txs)) as [stats ->].
  destruct (upserts_keep_transactions P (foldl insert_transaction db (t :: txs))
              (map_to_list stats)) as [-> _].
  by destruct (insert_transactions_table db (t :: txs)) as [-> _].
Qed.

(** X16. [save_to_db] appends one row per transaction to the transactions
    table, in the order of the list, with consecutive fresh rowids that
    start one above the largest rowid the table holds or ever held; the rows
    already there are untouched. Without transactions it writes nothing,
    neither rows nor statistics. *)
Theorem save_to_db_appends_rows (P : platform) (txs : list transaction) (db : database) :
  tx_table (save_to_db P txs db)
  = tx_table db
    ++ imap (λ i t, {| row_id := next_id (row_id <$> tx_table db) (tx_seq db) + Z.of_nat i;
                       row_tx := t |}) txs
  ∧ Forall (λ r, row_id r < next_id (row_id <$> tx_table db) (tx_seq db)) (tx_table db)
  ∧ save_to_db P [] db = db.
Proof.
  split_and!; [apply save_to_db_tx_table| |done].
  - destruct (max_id_bounds (row_id <$> tx_table db) (tx_seq db)) as [_ Hids].
    apply list.Forall_forall. intros r Hr.
    rewrite list.Forall_forall in Hids.
    assert (Hid : row_id r ≤ max_id (row_id <$> tx_table db) (tx_seq db)).
    { apply Hids. apply list_elem_of_fmap. by exists r. }
    unfold next_id. lia.
Qed.

(** ** The stats table *)

(** What [get_stats] reads under a name: the value of the last row of
    that name. *)
Lemma get_stats_lookup db name :
  get_stats db !! name
  = sr_value <$> list.last (filter (λ r, sr_name r = name) (stats_table db)).
Proof.
  unfold get_stats. generalize (stats_table db). intros rows.
  induction rows as [|r rows IH] using rev_ind; [done|].
  rewrite foldl_snoc, list.filter_app, filter_cons, filter_nil.
  destruct (decide (sr_name r = name)) as [<-|Hne].
  - by rewrite lookup_insert_eq, last_snoc.
  - by rewrite lookup_insert_ne, app_nil_r.
Qed.

Lemma filter_update_stat name value timestamp (rows : list stat_row) j :
  filter (λ r, sr_name r = j)
    ((λ r, if decide (sr_name r = name)
           then {| sr_id := sr_id r; sr_name := sr_name r;
                   sr_value := value; sr_updated_at := timestamp |}
           else r) <$> rows)
  = (λ r, if decide (sr_name r = name)
          then {| sr_id := sr_id r; sr_name := sr_name r;
                  sr_value := value; sr_updated_at := timestamp |}
          else r) <$> filter (λ r, sr_name r = j) rows.
Proof.
  induction rows as [|r rows IH]; [done|]. cbn [fmap list_fmap]. rewrite !filter_cons.
  destruct (decide (sr_name r = name)) as [Hname|Hname]; cbn [sr_name];
    destruct (decide (sr_name r = j)); cbn [fmap list_fmap];
    rewrite ?decide_True, ?decide_False by done; by rewrite IH.
Qed.

(** One upsert, as [get_stats] sees it, is one assignment. *)
Lemma get_stats_upsert P db name value :
  get_stats (upsert_stat P db (name, value)) = <[name := value]> (get_stats db).
Proof.
  unfold upsert_stat, select_stat_id. cbn [fst snd].
  destruct (filter (λ r, sr_name r = name) (stats_table db)) as [|r0 rest] eqn:Hfilter.
  - cbn [head fmap option_fmap option_map]. unfold get_stats, insert_stat.
    cbn [stats_table]. by rewrite foldl_snoc.
  - cbn [head fmap option_fmap option_map]. apply map_eq. intros j.
    rewrite get_stats_lookup. unfold update_stat. cbn [stats_table].
    rewrite filter_update_stat, fmap_last.
    destruct (decide (name = j)) as [<-|Hne].
    + rewrite lookup_insert_eq, Hfilter.
      destruct (list.last (r0 :: rest)) as [r|] eqn:Hlast.
      * assert (Hr : r ∈ filter (λ r, sr_name r = name) (stats_table db)).
        { rewrite Hfilter. by eapply last_Some_elem_of. }
        apply list_elem_of_filter in Hr as [Hr _]. simpl. by rewrite decide_True.
      * by apply last_None in Hlast.
    + rewrite lookup_insert_ne, get_stats_lookup by done.
      destruct (list.last (filter (λ r, sr_name r = j) (stats_table db))) as [r|] eqn:Hlast;
        [|done].
      assert (Hr : r ∈ filter (λ r, sr_name r = j) (stats_table db))
        by (by eapply last_Some_elem_of).
      apply list_elem_of_filter in Hr as [Hr _]. simpl.
      rewrite decide_False; [done|]. congruence.
Qed.

Lemma get_stats_upserts P db entries :
  get_stats (foldl (upsert_stat P) db entries)
  = foldl (λ stats e, <[e.1 := e.2]> stats) (get_stats db) entries.
Proof.
  revert db. induction entries as [|[name value] entries IH]; intros db; [done|].
  cbn [foldl]. by rewrite IH, get_stats_upsert.
Qed.

Lemma foldl_insert_union (entries : list (string * stat)) (base : gmap string stat) :
  NoDup entries.*1 →
  foldl (λ stats e, <[e.1 := e.2]> stats) base entries = list_to_map entries ∪ base.
Proof.
  induction entries as [|[name value] entries IH] using rev_ind; intros Hnodup.
  - simpl. by rewrite (left_id_L ∅ (∪)).
  - rewrite fmap_app in Hnodup. apply list.NoDup_app in Hnodup as (Hnd & Hfresh & _).
    rewrite foldl_snoc, IH by done. cbn [fst snd].
    rewrite list_to_map_snoc, insert_union_l; [done|].
    intros Hin. apply (Hfresh _ Hin). cbn. by apply list_elem_of_singleton.
Qed.

Lemma get_stats_insert_transactions db txs :
  get_stats (foldl insert_transaction db txs) = get_stats db.
Proof.
  unfold get_stats. by destruct (insert_transactions_table db txs) as (_ & -> & _).
Qed.

Lemma get_stats_save P txs db stats :
  txs ≠ [] → calculate_stats txs = Some stats →
  get_stats (save_to_db P txs db) = stats ∪ get_stats db.
Proof.
  intros Hne Hstats. unfold save_to_db. destruct txs as [|t txs]; [done|]. rewrite Hstats.
  rewrite get_stats_upserts, get_stats_insert_transactions.
  rewrite foldl_insert_union by apply NoDup_fst_map_to_list.
  by rewrite list_to_map_to_list.
Qed.

(** X17. Writing and reading the statistics round-trip: after [save_to_db]
    of a non-empty list of transactions, [get_stats] returns the snapshot of
    that list on every key of the snapshot, and on every other name what it
    returned before. Statistics of an earlier run whose key is not in the
    new snapshot thus stay in the table with their old value. *)
Theorem save_then_get_stats (P : platform) (txs : list transaction) (db : database) :
  txs ≠ [] →
  ∃ stats,
    calculate_stats txs = Some stats
    ∧ get_stats (save_to_db P txs db) = stats ∪ get_stats db
    ∧ (∀ key v, stats !! key = Some v → get_stats (save_to_db P txs db) !! key = Some v)
    ∧ (∀ key, stats !! key = None →
         get_stats (save_to_db P txs db) !! key = get_stats db !! key).
Proof.
  intros Hne. destruct (calculate_stats_is_Some txs) as [stats Hstats].
  exists stats. split; [done|].
  assert (Hget : get_stats (save_to_db P txs db) = stats ∪ get_stats db)
    by (by apply get_stats_save).
  split_and!; [done| |].
  - intros key v Hkey. rewrite Hget. by apply lookup_union_Some_l.
  - intros key Hkey. rewrite Hget. by apply lookup_union_r.
Qed.

Lemma save_then_get_stats_witness :
  sample_batch ≠ []
  ∧ ∃ stats,
      calculate_stats sample_batch = Some stats
      ∧ get_stats (save_to_db posix64 sample_batch empty_db) = stats ∪ get_stats empty_db.
Proof.
  assert (Hne : sample_batch ≠ []) by discriminate.
  split; [exact Hne|].
  destruct (save_then_get_stats posix64 sample_batch empty_db Hne)
    as (stats & Hstats & Hget & _).
  exists stats. split; [exact Hstats | exact Hget].
Defined.

Lemma upsert_names P db entry :
  NoDup (sr_name <$> stats_table db) →
  NoDup (sr_name <$> stats_table (upsert_stat P db entry))
  ∧ ∀ name, name ∈ sr_name <$> stats_table db →
            name ∈ sr_name <$> stats_table (upsert_stat P db entry).
Proof.
  intros Hnodup. unfold upsert_stat, select_stat_id.
  destruct (filter (λ r, sr_name r = entry.1) (stats_table db)) as [|r0 rest] eqn:Hfilter;
    cbn [head fmap option_fmap option_map].
  - unfold insert_stat. cbn [stats_table]. rewrite fmap_app. cbn [fmap list_fmap sr_name].
    split.
    + apply list.NoDup_app. split_and!; [done| |apply NoDup_singleton].
      intros name (r & -> & Hr)%list_elem_of_fmap Heq%list_elem_of_singleton.
      assert (Hin : r ∈ filter (λ r, sr_name r = entry.1) (stats_table db))
        by (by apply list_elem_of_filter).
      rewrite Hfilter in Hin. by apply elem_of_nil in Hin.
    + intros name Hin. apply elem_of_app. by left.
  - unfold update_stat. cbn [stats_table]. rewrite <-list_fmap_compose.
    assert (Hnames : (sr_name ∘ (λ r, if decide (sr_name r = entry.1)
                        then {| sr_id := sr_id r; sr_name := sr_name r;
                                sr_value := entry.2; sr_updated_at := now P |}
                        else r)) <$> stats_table db
                     = sr_name <$> stats_table db).
    { apply list_fmap_ext. intros i r _. cbn [compose].
      by destruct (decide (sr_name r = entry.1)). }
    by rewrite Hnames.
Qed.

Lemma upserts_names P db entries :
  NoDup (sr_name <$> stats_table db) →
  NoDup (sr_name <$> stats_table (foldl (upsert_stat P) db entries))
  ∧ ∀ name, name ∈ sr_name <$> stats_table db →
            name ∈ sr_name <$> stats_table (foldl (upsert_stat P) db entries).
Proof.
  revert db. induction entries as [|e entries IH]; intros db Hnodup; [done|].
  cbn [foldl]. destruct (upsert_names P db e Hnodup) as [Hnd Hkeep].
  destruct (IH _ Hnd) as [Hnd' Hkeep']. split; [done|]. auto.
Qed.

(** X18. [save_to_db] keeps the stats table free of duplicate names: when
    no two rows share a name before, no two rows share a name after; and it
    never removes a row, so every name of the table is still there. *)
Theorem save_to_db_keeps_names_unique (P : platform) (txs : list transaction)
    (db : database) :
  NoDup (sr_name <$> stats_table db) →
  NoDup (sr_name <$> stats_table (save_to_db P txs db))
  ∧ ∀ name, name ∈ sr_name <$> stats_table db →
            name ∈ sr_name <$> stats_table (save_to_db P txs db).
Proof.
  intros Hnodup. unfold save_to_db. destruct txs as [|t txs]; [done|].
  destruct (calculate_stats (t :: txs)) as [stats|]; [|done].
  destruct (insert_transactions_table db (t :: txs)) as (_ & Hsame & _).
  rewrite <-Hsame in Hnodup.
  destruct (upserts_names P _ (map_to_list stats) Hnodup) as [Hnd Hkeep].
  split; [done|]. intros name Hname. apply Hkeep. by rewrite Hsame.
Qed.

Lemma save_to_db_keeps_names_unique_witness :
  NoDup (sr_name <$> stats_table empty_db)
  ∧ NoDup (sr_name <$> stats_table (save_to_db posix64 sample_batch empty_db)).
Proof.
  assert (H : NoDup (sr_name <$> stats_table empty_db)) by constructor.
  split; [exact H|].
  exact (proj1 (save_to_db_keeps_names_unique posix64 sample_batch empty_db H)).
Defined.

Lemma save_to_db_row_txs P txs db :
  row_tx <$> tx_table (save_to_db P txs db) = (row_tx <$> tx_table db) ++ txs.
Proof.
  rewrite save_to_db_tx_table, fmap_app. f_equal.
  generalize (next_id (row_id <$> tx_table db) (tx_seq db)). intros n.
  rewrite fmap_imap. cbn [compose row_tx].
  induction txs as [|t txs IH] using rev_ind; [done|].
  by rewrite imap_app, IH.
Qed.

(** X19. Saving the same transactions a second time stores their rows a
    second time, while the statistics read the same as after the first
    save: the rows of the transactions table are never deduplicated, the
    statistics are overwritten, not accumulated. *)
Theorem save_to_db_twice (P : platform) (txs : list transaction) (db : database) :
  row_tx <$> tx_table (save_to_db P txs (save_to_db P txs db))
  = (row_tx <$> tx_table db) ++ txs ++ txs
  ∧ get_stats (save_to_db P txs (save_to_db P txs db)) = get_stats (save_to_db P txs db).
Proof.
  split.
  - by rewrite !save_to_db_row_txs, <-app_assoc.
  - destruct txs as [|t txs]; [done|].
    destruct (calculate_stats_is_Some (t :: txs)) as [stats Hstats].
    rewrite !(get_stats_save _ _ _ stats) by done.
    by rewrite (assoc_L (∪)), (idemp_L (∪)).
Qed.

(** ** A whole run *)

Lemma process_run_cons P msg msgs w :
  process_run P (msg :: msgs) w
  = {| w_run := process P (msg :: msgs) (w_run w);
       w_db := save_to_db P (transactions (process P (msg :: msgs) (w_run w))) (w_db w);
       w_dashboard :=
         export_to_json P (transactions (process P (msg :: msgs) (w_run w)))
           (w_dashboard w) |}.
Proof. reflexivity. Qed.

(** X20. A run over a batch none of whose messages yields a transaction, on
    a processor that holds none yet, leaves the database and the dashboard
    file exactly as they were: the statistics of an earlier run stay in
    place, they are not reset to zero. *)
Theorem run_without_transactions (P : platform) (msgs : list message) (w : world) :
  transactions (w_run w) = [] →
  omap (extracted_transaction P) msgs = [] →
  w_db (process_run P msgs w) = w_db w
  ∧ w_dashboard (process_run P msgs w) = w_dashboard w
  ∧ transactions (w_run (process_run P msgs w)) = [].
Proof.
  intros Hrun Hnone. destruct msgs as [|msg msgs]; [done|].
  rewrite process_run_cons. cbn [w_db w_dashboard w_run].
  destruct (process_contributions P (msg :: msgs) (w_run w)) as [-> _].
  by rewrite Hrun, Hnone.
Qed.

Lemma run_without_transactions_witness :
  transactions (w_run fresh_world) = []
  ∧ omap (extracted_transaction posix64)
      [greeting_message; bodyless_message; far_future_message] = []
  ∧ w_db (process_run posix64
            [greeting_message; bodyless_message; far_future_message] fresh_world)
    = empty_db
  ∧ w_dashboard (process_run posix64
                   [greeting_message; bodyless_message; far_future_message] fresh_world)
    = None.
Proof.
  assert (H1 : transactions (w_run fresh_world) = []) by reflexivity.
  assert (H2 : omap (extracted_transaction posix64)
                 [greeting_message; bodyless_message; far_future_message] = [])
    by reflexivity.
  destruct (run_without_transactions posix64 _ fresh_world H1 H2) as (Hdb & Hfile & _).
  split_and!; [exact H1 | exact H2 | exact Hdb | exact Hfile].
Defined.

(** X21. A run stores what it exports: on a processor that holds no
    transaction yet, a run whose batch yields at least one transaction
    appends exactly these transactions, in batch order, to the transactions
    table, writes them with their snapshot to the dashboard file, and leaves
    the stats table reading that same snapshot on each of its keys. *)
Theorem run_stores_what_it_exports (P : platform) (msgs : list message) (w : world) :
  transactions (w_run w) = [] →
  omap (extracted_transaction P) msgs ≠ [] →
  ∃ stats,
    calculate_stats (omap (extracted_transaction P) msgs) = Some stats
    ∧ w_dashboard (process_run P msgs w)
      = Some {| ex_transactions := omap (extracted_transaction P) msgs;
                ex_stats := stats;
                ex_generated_at := now P |}
    ∧ row_tx <$> tx_table (w_db (process_run P msgs w))
      = (row_tx <$> tx_table (w_db w)) ++ omap (extracted_transaction P) msgs
    ∧ get_stats (w_db (process_run P msgs w)) = stats ∪ get_stats (w_db w).
Proof.
  intros Hrun Hsome. destruct msgs as [|msg msgs]; [done|].
  rewrite process_run_cons. cbn [w_db w_dashboard w_run].
  destruct (process_contributions P (msg :: msgs) (w_run w)) as [-> _].
  rewrite Hrun, app_nil_l.
  set (txs := omap (extracted_transaction P) (msg :: msgs)) in *.
  destruct (calculate_stats_is_Some txs) as [stats Hstats].
  exists stats. split_and!.
  - done.
  - unfold export_to_json. rewrite Hstats. by destruct txs.
  - apply save_to_db_row_txs.
  - by apply get_stats_save.
Qed.

Lemma run_stores_what_it_exports_witness :
  transactions (w_run fresh_world) = []
  ∧ omap (extracted_transaction posix64) [greeting_message; c2_message] ≠ []
  ∧ ∃ stats,
      calculate_stats (omap (extracted_transaction posix64) [greeting_message; c2_message])
      = Some stats
      ∧ get_stats (w_db (process_run posix64 [greeting_message; c2_message] fresh_world))
        = stats ∪ get_stats empty_db.
Proof.
  assert (H1 : transactions (w_run fresh_world) = []) by reflexivity.
  assert (H2 : omap (extracted_transaction posix64) [greeting_message; c2_message] ≠ []).
  { assert (Hlen : length (omap (extracted_transaction posix64)
                             [greeting_message; c2_message]) = 1%nat) by reflexivity.
    intros Hnil. rewrite Hnil in Hlen. discriminate Hlen. }
  split_and!; [exact H1 | exact H2 |].
  destruct (run_stores_what_it_exports posix64 _ fresh_world H1 H2)
    as (stats & Hstats & _ & _ & Hget).
  exists stats. split; [exact Hstats | exact Hget].
Defined.

(** X22. The processor never forgets its transactions: a second call of
    [process] on the same object, over the same batch, stores the
    transactions of the first call again together with their second copy,
    so that the table gains three copies of each in all, and the dashboard
    lists each transaction twice. *)
Theorem second_run_on_same_processor (P : platform) (msgs : list message) (w : world) :
  transactions (w_run w) = [] →
  let txs := omap (extracted_transaction P) msgs in
  let w2 := process_run P msgs (process_run P msgs w) in
  transactions (w_run w2) = txs ++ txs
  ∧ row_tx <$> tx_table (w_db w2) = (row_tx <$> tx_table (w_db w)) ++ txs ++ txs ++ txs
  ∧ (txs ≠ [] → ex_transactions <$> w_dashboard w2 = Some (txs ++ txs)).
Proof.
  intros Hrun txs w2. subst w2. destruct msgs as [|msg msgs].
  { subst txs. simpl. rewrite Hrun, !app_nil_r. split_and!; done. }
  rewrite !process_run_cons. cbn [w_db w_dashboard w_run].
  destruct (process_contributions P (msg :: msgs)
              (process P (msg :: msgs) (w_run w))) as [-> _].
  destruct (process_contributions P (msg :: msgs) (w_run w)) as [-> _].
  rewrite Hrun, app_nil_l. fold txs. split_and!.
  - done.
  - by rewrite !save_to_db_row_txs, <-!app_assoc.
  - intros Hne. unfold export_to_json at 1.
    destruct (calculate_stats_is_Some (txs ++ txs)) as [stats ->].
    destruct txs; [done|]. reflexivity.
Qed.

Lemma second_run_on_same_processor_witness :
  transactions (w_run fresh_world) = []
  ∧ length (tx_table (w_db (process_run posix64 [c2_message]
                              (process_run posix64 [c2_message] fresh_world)))) = 3%nat.
Proof.
  assert (H1 : transactions (w_run fresh_world) = []) by reflexivity.
  split; [exact H1|].
  destruct (second_run_on_same_processor posix64 [c2_message] fresh_world H1)
    as (_ & Hrows & _).
  apply (f_equal length) in Hrows. rewrite length_fmap in Hrows. rewrite Hrows.
  reflexivity.
Defined.
